(** * oled-mediadisplay: the render loop of [main.py]

    A shallow embedding of [src/main.py] (the MQTT metadata store, the
    starfield, the scrolling title and the main loop) together with the
    properties of its specification.

    Conventions of the embedding.
    - A Python [int] is a [Z]; a Python [float] is a rational [Q] (exact
      arithmetic: binary rounding is abstracted, [0.2] is [1#5]). The module
      [Binary64] recomputes the depth and the projection of a star in
      IEEE 754 binary64, the arithmetic of the interpreter, to check that
      rounding does not change what is proved about them.
    - A Python [str] is the list of its code points.
    - A method [m(self, a)] that mutates [self] becomes a function
      [m self a] returning the new object.
    - [time.time()], [random.randrange], [time.sleep] and the display are
      effects on a [World]; code that uses them runs in the monad [M], which
      also carries the exceptions the code can raise.
    - What belongs to the libraries (UTF-8 decoding, [str.isspace], the font
      and PIL's [textbbox]) is a member of the class [Platform].

    The further definitions and properties cover the rest of [main.py] and
    the two other scripts, [src/cover_display.py] and
    [src/esp32-c3/mqtt_cover_translator.py]. What these take from PIL to
    decode and scale a cover is a member of the class [Imaging]; in their
    pure parts an exception is the value [None]. *)

From Stdlib Require Import ZArith QArith Lqa Lia List Bool String Ascii.
From Stdlib Require Strings.Byte.
From Stdlib Require Floats Uint63.
Import ListNotations.

Local Open Scope Z_scope.

(** ** Python values *)

Definition codepoint := N.
Definition str := list codepoint.

(** A string literal of the source (ASCII only in [main.py]). *)
Definition lit (s : string) : str :=
  List.map N_of_ascii (list_ascii_of_string s).
Arguments lit s%_string.

Fixpoint str_eqb (a b : str) : bool :=
  match a, b with
  | [], [] => true
  | x :: a', y :: b' => N.eqb x y && str_eqb a' b'
  | _, _ => false
  end.

(** Truth value of a [str]: the empty string is false. *)
Definition str_bool (s : str) : bool :=
  match s with [] => false | _ :: _ => true end.

(** Truth value of an [Optional[str]]: [None] and the empty string are false. *)
Definition opt_bool (o : option str) : bool :=
  match o with None => false | Some s => str_bool s end.

(** [a == b] where [a] is a [str] and [b] an [Optional[str]]. *)
Definition str_eq_opt (a : str) (b : option str) : bool :=
  match b with None => false | Some s => str_eqb a s end.

(** [int(x)] of a float: truncation towards zero. *)
Definition int_of_float (x : Q) : Z := Z.quot (Qnum x) (Zpos (Qden x)).

(** [float(n)] of an int. *)
Definition float (n : Z) : Q := inject_Z n.

(** What the program takes from its libraries. *)
Class Platform := {
  (** [bytes.decode("utf-8", errors="ignore")] *)
  decode_utf8_ignore : list Byte.byte -> str;
  (** [str.isspace] on one character, as [str.strip] uses it *)
  isspace : codepoint -> bool;
  (** a loaded font *)
  Font : Type;
  (** [ImageDraw.textbbox((0, 0), text, font=font)]: left, top, right, bottom *)
  textbbox : Font -> str -> Q * Q * Q * Q
}.

(** ** Drawing *)

(** The calls made on an [ImageDraw]: a canvas is the list of them, the
    latest first. *)
Inductive DrawOp :=
| DrawPoint (x y : Z) (fill : Z)
| DrawText (x y : Z) (text : str) (fill : Z).

Definition Canvas := list DrawOp.

(** ** Effects *)

Inductive exn := ValueError | ZeroDivisionError.

Inductive result (A : Type) :=
| Ok (a : A)
| Raise (e : exn).
Arguments Ok {A} a.
Arguments Raise {A} e.

(** The outside world: the successive readings of [time.time()], the raw
    values behind [randrange], and what the program has done to it (the
    sleeps it asked for and the frames it displayed, latest first). *)
Record World := mkWorld {
  clock : nat -> Q;
  clock_reads : nat;
  entropy : nat -> Z;
  entropy_reads : nat;
  slept : list Q;
  displayed : list Canvas
}.

Definition M (A : Type) := World -> result (A * World).

Definition ret {A} (a : A) : M A := fun w => Ok (a, w).

Definition bind {A B} (m : M A) (k : A -> M B) : M B :=
  fun w => match m w with
           | Ok (a, w') => k a w'
           | Raise e => Raise e
           end.

Definition raise {A} (e : exn) : M A := fun _ => Raise e.

Declare Scope py_scope.
Delimit Scope py_scope with py.
Notation "x <- m ;; k" := (bind m (fun x => k))
  (at level 61, m at next level, right associativity) : py_scope.
Notation "' p <- m ;; k" := (bind m (fun x => match x with p => k end))
  (at level 61, p pattern, m at next level, right associativity) : py_scope.
Local Open Scope py_scope.

(** The world after one more reading of the clock. *)
Definition clock_read (w : World) : World :=
  mkWorld (clock w) (S (clock_reads w)) (entropy w) (entropy_reads w)
          (slept w) (displayed w).

(** The world after one more random value. *)
Definition entropy_read (w : World) : World :=
  mkWorld (clock w) (clock_reads w) (entropy w) (S (entropy_reads w))
          (slept w) (displayed w).

(** Two worlds with the same clock, read as many times. *)
Definition same_clock (w w' : World) : Prop :=
  clock w' = clock w /\ clock_reads w' = clock_reads w.

(** [time.time()] *)
Definition time_time : M Q :=
  fun w => Ok (clock w (clock_reads w), clock_read w).

(** [time.sleep(d)] *)
Definition time_sleep (d : Q) : M unit :=
  fun w => Ok (tt, mkWorld (clock w) (clock_reads w) (entropy w) (entropy_reads w)
                           (d :: slept w) (displayed w)).

(** [randrange(a, b)]: some integer of [a, b), [ValueError] on an empty range. *)
Definition randrange (a b : Z) : M Z :=
  fun w => if a <? b
           then Ok (a + entropy w (entropy_reads w) mod (b - a), entropy_read w)
           else Raise ValueError.

(** Leaving [with canvas(device) as draw]: the frame goes to the display. *)
Definition display (c : Canvas) : M unit :=
  fun w => Ok (tt, mkWorld (clock w) (clock_reads w) (entropy w) (entropy_reads w)
                           (slept w) (c :: displayed w)).

(** ** Configuration ([main.py], lines 16-40) *)

Definition WIDTH : Z := 128.
Definition HEIGHT : Z := 64.
Definition FPS : Z := 30.
Definition SCROLL_SPEED : Z := 2.
Definition SCROLL_DELAY : Q := 2.
Definition STAR_NUM : Z := 512.
Definition STAR_MAX_DEPTH : Z := 32.
Definition STAR_Z_STEP : Q := 1 # 5.
Definition STAR_VIEW_Y_OFFSET : Z := 15.

(** ** Helpers *)

Definition get_text_width `{Platform} (font : Font) (text : str) : Z :=
  let '(x0, _, x1, _) := textbbox font text in
  int_of_float (x1 - x0).

(** [str.strip()] *)
Fixpoint lstrip `{Platform} (s : str) : str :=
  match s with
  | [] => []
  | c :: r => if isspace c then lstrip r else s
  end.

Definition rstrip `{Platform} (s : str) : str := rev (lstrip (rev s)).

Definition strip `{Platform} (s : str) : str := rstrip (lstrip s).

(** ** class ShairportMQTTClient *)

Module ShairportMQTTClient.

(** The fields of the object. [_lock] guards the four private fields: a
    method body under [with self._lock] is one step of this model. The paho
    client object is the library's. *)
Record t := mk {
  broker : str;
  port : Z;
  topic_base : str;
  _title : option str;
  _artist : option str;
  _is_active : bool;
  _connected : bool
}.

(** An incoming MQTT message. *)
Record MQTTMessage := mkMsg {
  topic : str;
  payload : list Byte.byte
}.

Definition __init__ (broker : str) (port : Z) (username password : str)
  (topic_base : str) : t :=
  mk broker port topic_base None None false false.

(** The topics [_on_connect] subscribes to. *)
Definition topics (self : t) : list str :=
  [ topic_base self ++ lit "/title";
    topic_base self ++ lit "/artist";
    topic_base self ++ lit "/active_start";
    topic_base self ++ lit "/active_end";
    topic_base self ++ lit "/play_start";
    topic_base self ++ lit "/play_end" ].

Definition _on_connect (self : t) : t :=
  mk (broker self) (port self) (topic_base self)
     (_title self) (_artist self) (_is_active self) true.

Definition _on_disconnect (self : t) : t :=
  mk (broker self) (port self) (topic_base self)
     (_title self) (_artist self) (_is_active self) false.

(** [payload if payload and payload != "--" else None] *)
Definition normalize (payload : str) : option str :=
  if str_bool payload && negb (str_eqb payload (lit "--"))
  then Some payload else None.

(** The [print] of the message is not modelled. *)
Definition _on_message `{Platform} (self : t) (msg : MQTTMessage) : t :=
  let topic := topic msg in
  let payload := strip (decode_utf8_ignore (payload msg)) in
  if str_eqb topic (topic_base self ++ lit "/title") then
    mk (broker self) (port self) (topic_base self)
       (normalize payload) (_artist self) (_is_active self) (_connected self)
  else if str_eqb topic (topic_base self ++ lit "/artist") then
    mk (broker self) (port self) (topic_base self)
       (_title self) (normalize payload) (_is_active self) (_connected self)
  else if str_eqb topic (topic_base self ++ lit "/active_start") then
    mk (broker self) (port self) (topic_base self)
       (_title self) (_artist self) true (_connected self)
  else if str_eqb topic (topic_base self ++ lit "/active_end") then
    mk (broker self) (port self) (topic_base self)
       None None false (_connected self)
  else if str_eqb topic (topic_base self ++ lit "/play_end") then
    mk (broker self) (port self) (topic_base self)
       None None (_is_active self) (_connected self)
  else self.

Definition is_active (self : t) : bool := _is_active self.

Definition get_display_title (self : t) : option str :=
  if negb (opt_bool (_title self)) then None
  else match _title self, _artist self with
       | Some title, Some artist =>
           if str_bool artist then Some (artist ++ lit " - " ++ title)
           else Some title
       | Some title, None => Some title
       | None, _ => None
       end.

(** Neither field holds the empty string. *)
Definition normalized (s : t) : Prop :=
  _title s <> Some [] /\ _artist s <> Some [].

(** The store after a sequence of messages, the earliest first. *)
Definition deliver `{Platform} (self : t) (msgs : list MQTTMessage) : t :=
  fold_left _on_message msgs self.

(** The states of the store: built by [__init__], then changed by the
    callbacks of the MQTT client in any order. *)
Inductive reachable `{Platform} : t -> Prop :=
| reach_init broker port username password topic_base :
    reachable (__init__ broker port username password topic_base)
| reach_connect self : reachable self -> reachable (_on_connect self)
| reach_disconnect self : reachable self -> reachable (_on_disconnect self)
| reach_message self msg : reachable self -> reachable (_on_message self msg).

End ShairportMQTTClient.

(** ** class Starfield *)

(** [a / b] on floats. *)
Definition float_div (a b : Q) : M Q :=
  if Qeq_bool b 0 then raise ZeroDivisionError else ret (a / b)%Q.

Module Starfield.

(** A star is the list [[x, y, depth]] of three floats. *)
Record Star := mkStar {
  star_0 : Q;
  star_1 : Q;
  star_2 : Q
}.

Record t := mk {
  width : Z;
  height : Z;
  num_stars : Z;
  max_depth : Z;
  stars : list Star;
  vp_x : Z;
  vp_y : Z;
  vp_w : Z;
  vp_h : Z;
  origin_x : Z;
  origin_y : Z
}.

(** The list comprehension of [init_stars], [n] elements. *)
Fixpoint fresh_stars (n : nat) (max_depth : Z) : M (list Star) :=
  match n with
  | O => ret []
  | S n' =>
      a <- randrange (-25) 25 ;;
      b <- randrange (-25) 25 ;;
      c <- randrange 1 max_depth ;;
      rest <- fresh_stars n' max_depth ;;
      ret (mkStar (float a) (float b) (float c) :: rest)
  end.

Definition init_stars (self : t) : M t :=
  l <- fresh_stars (Z.to_nat (num_stars self)) (max_depth self) ;;
  ret (mk (width self) (height self) (num_stars self) (max_depth self) l
          (vp_x self) (vp_y self) (vp_w self) (vp_h self)
          (origin_x self) (origin_y self)).

Definition __init__ (width height num_stars max_depth : Z) : M t :=
  self <- init_stars (mk width height num_stars max_depth [] 0 0 0 0 0 0) ;;
  ret (mk width height num_stars max_depth (stars self)
          0 0 width height (width / 2) (height / 2)).

Definition set_viewport (self : t) (x y w h : Z) : t :=
  mk (width self) (height self) (num_stars self) (max_depth self) (stars self)
     x y w h (x + w / 2) (y + h / 2).

(** [vp_x <= x < vp_x + vp_w and vp_y <= y < vp_y + vp_h] *)
Definition in_viewport (self : t) (x y : Z) : bool :=
  ((vp_x self <=? x) && (x <? vp_x self + vp_w self))
  && ((vp_y self <=? y) && (y <? vp_y self + vp_h self)).

(** Lines 184-188: the decrement and the respawn of one star. *)
Definition move_star (self : t) (star : Star) : M Star :=
  let star := mkStar (star_0 star) (star_1 star) (star_2 star - STAR_Z_STEP) in
  if Qle_bool (star_2 star) 0 then
    a <- randrange (-25) 25 ;;
    b <- randrange (-25) 25 ;;
    ret (mkStar (float a) (float b) (float (max_depth self)))
  else ret star.

(** Lines 190-198: projection, clip and drawing of one star. *)
Definition draw_star (self : t) (star : Star) (draw : Canvas) : M Canvas :=
  k <- float_div 128 (star_2 star) ;;
  let x := int_of_float (star_0 star * k + float (origin_x self)) in
  let y := int_of_float (star_1 star * k + float (origin_y self)) in
  if in_viewport self x y then
    let draw := DrawPoint x y 255 :: draw in
    q <- float_div (star_2 star) (float (max_depth self)) ;;
    if Qle_bool 2 ((1 - q) * 4) then ret (DrawPoint (x + 1) y 255 :: draw)
    else ret draw
  else ret draw.

(** The body of the loop of [update_and_draw]. *)
Definition star_tick (self : t) (star : Star) (draw : Canvas) : M (Star * Canvas) :=
  star <- move_star self star ;;
  draw <- draw_star self star draw ;;
  ret (star, draw).

Fixpoint for_stars (self : t) (l : list Star) (draw : Canvas) : M (list Star * Canvas) :=
  match l with
  | [] => ret ([], draw)
  | star :: rest =>
      '(star, draw) <- star_tick self star draw ;;
      '(rest, draw) <- for_stars self rest draw ;;
      ret (star :: rest, draw)
  end.

Definition update_and_draw (self : t) (draw : Canvas) : M (t * Canvas) :=
  '(l, draw) <- for_stars self (stars self) draw ;;
  ret (mk (width self) (height self) (num_stars self) (max_depth self) l
          (vp_x self) (vp_y self) (vp_w self) (vp_h self)
          (origin_x self) (origin_y self), draw).

(** [n] ticks in a row, each on a fresh canvas; the last canvas is returned. *)
Fixpoint ticks (n : nat) (self : t) : M (t * Canvas) :=
  match n with
  | O => ret (self, [])
  | S n' =>
      '(self, _) <- ticks n' self ;;
      update_and_draw self []
  end.

(** The star that [move_star] respawns in world [w]: its coordinates are the
    next two values of [randrange(-25, 25)]. *)
Definition respawned (self : t) (w : World) : Star :=
  mkStar (float (-25 + entropy w (entropy_reads w) mod 50))
         (float (-25 + entropy w (S (entropy_reads w)) mod 50))
         (float (max_depth self)).

(** The invariant of the specification on one star. *)
Definition depth_ok (self : t) (star : Star) : Prop :=
  (0 < star_2 star)%Q /\ (star_2 star <= float (max_depth self))%Q.

(** The starfields the program can hold: built by [__init__], then any
    number of [set_viewport] and [update_and_draw]. *)
Inductive reachable : t -> Prop :=
| reach_init width height num_stars max_depth w self w' :
    __init__ width height num_stars max_depth w = Ok (self, w') ->
    reachable self
| reach_viewport self x y w h :
    reachable self -> reachable (set_viewport self x y w h)
| reach_tick self draw w self' draw' w' :
    reachable self ->
    update_and_draw self draw w = Ok (self', draw', w') ->
    reachable self'.

End Starfield.

(** ** class TitleDisplay *)

Module TitleDisplay.
Section WithPlatform.
Context `{Platform}.

Record t := mk {
  width : Z;
  font : Font;
  text : option str;
  display_text : str;
  is_scrolling : bool;
  scroll_offset : Q;
  text_width : Z;
  scroll_wait_start : Q;
  waiting_to_scroll : bool
}.

Definition __init__ (width : Z) (font : Font) : t :=
  mk width font None [] false 0 0 0 false.

Definition set_title (self : t) (title : str) : M t :=
  if str_eq_opt title (text self) then ret self
  else
    now <- time_time ;;
    let base_w := get_text_width (font self) title in
    let dashed := lit "- " ++ title ++ lit " -" in
    let dashed_w := get_text_width (font self) dashed in
    if dashed_w <=? width self then
      ret (mk (width self) (font self) (Some title) dashed false 0 dashed_w now true)
    else if base_w <=? width self then
      ret (mk (width self) (font self) (Some title) title false 0 base_w now true)
    else
      let padded := title ++ lit "   " in
      ret (mk (width self) (font self) (Some title) padded true 0
              (get_text_width (font self) padded) now true).

Definition update (self : t) : M t :=
  if negb (is_scrolling self) then ret self
  else
    now <- time_time ;;
    if waiting_to_scroll self then
      if Qle_bool SCROLL_DELAY (now - scroll_wait_start self) then
        ret (mk (width self) (font self) (text self) (display_text self)
                (is_scrolling self) (scroll_offset self) (text_width self)
                (scroll_wait_start self) false)
      else ret self
    else
      let offset := (scroll_offset self + float SCROLL_SPEED)%Q in
      if Qle_bool (float (text_width self)) offset then
        again <- time_time ;;
        ret (mk (width self) (font self) (text self) (display_text self)
                (is_scrolling self) 0 (text_width self) again true)
      else
        ret (mk (width self) (font self) (text self) (display_text self)
                (is_scrolling self) offset (text_width self)
                (scroll_wait_start self) (waiting_to_scroll self)).

Definition draw (self : t) (draw : Canvas) (y : Z) : Canvas :=
  if negb (is_scrolling self) then
    let x := (width self - text_width self) / 2 in
    DrawText x y (display_text self) 255 :: draw
  else
    let x := - int_of_float (scroll_offset self) in
    DrawText (x + text_width self) y (display_text self) 255
      :: DrawText x y (display_text self) 255 :: draw.

(** What [set_title] decides for a title, by the widths of its three
    renderings. *)
Definition layout_of (self : t) (title : str) : Prop :=
  let dashed := lit "- " ++ title ++ lit " -" in
  let padded := title ++ lit "   " in
  (get_text_width (font self) dashed <= width self ->
     display_text self = dashed /\ is_scrolling self = false /\
     text_width self = get_text_width (font self) dashed) /\
  (width self < get_text_width (font self) dashed ->
   get_text_width (font self) title <= width self ->
     display_text self = title /\ is_scrolling self = false /\
     text_width self = get_text_width (font self) title) /\
  (width self < get_text_width (font self) dashed ->
   width self < get_text_width (font self) title ->
     display_text self = padded /\ is_scrolling self = true /\
     text_width self = get_text_width (font self) padded).

(** The layout stored with a title is the one [set_title] computes for it,
    and the text is at rest while the display waits. *)
Definition consistent (self : t) : Prop :=
  (forall title, text self = Some title -> layout_of self title) /\
  (waiting_to_scroll self = true -> scroll_offset self = 0%Q).

(** The title displays the program can hold: built by [__init__], then any
    number of [set_title] and [update]. *)
Inductive reachable : t -> Prop :=
| reach_init width font : reachable (__init__ width font)
| reach_set_title self title w self' w' :
    reachable self -> set_title self title w = Ok (self', w') -> reachable self'
| reach_update self w self' w' :
    reachable self -> update self w = Ok (self', w') -> reachable self'.

End WithPlatform.
End TitleDisplay.

(** ** main *)

Module Main.
Section WithPlatform.
Context `{Platform}.

(** The local variables of [main] that outlive one iteration of its loop. *)
Record t := mk {
  mqtt_client : ShairportMQTTClient.t;
  starfield : Starfield.t;
  title_display : TitleDisplay.t;
  title : option str
}.

(** Lines 269-290. The MQTT settings come from the environment and the font
    from [get_font]. *)
Definition setup (broker : str) (port : Z) (user pass topic_base : str)
  (font : Font) : M t :=
  let mqtt_client := ShairportMQTTClient.__init__ broker port user pass topic_base in
  starfield <- Starfield.__init__ WIDTH HEIGHT STAR_NUM STAR_MAX_DEPTH ;;
  let title_display := TitleDisplay.__init__ WIDTH font in
  ret (mk mqtt_client starfield title_display None).

(** Lines 296-307: steps 1 and 2 of an iteration. *)
Definition update_state (m : t) : M t :=
  let title := ShairportMQTTClient.get_display_title (mqtt_client m) in
  match title with
  | Some s =>
      if str_bool s then
        td <- TitleDisplay.set_title (title_display m) s ;;
        td <- TitleDisplay.update td ;;
        ret (mk (mqtt_client m)
                (Starfield.set_viewport (starfield m) 0 STAR_VIEW_Y_OFFSET
                   WIDTH (HEIGHT - STAR_VIEW_Y_OFFSET))
                td title)
      else
        ret (mk (mqtt_client m)
                (Starfield.set_viewport (starfield m) 0 0 WIDTH HEIGHT)
                (title_display m) title)
  | None =>
      ret (mk (mqtt_client m)
              (Starfield.set_viewport (starfield m) 0 0 WIDTH HEIGHT)
              (title_display m) title)
  end.

(** Lines 310-314: step 3 of an iteration. *)
Definition draw_frame (m : t) : M t :=
  let draw := [] in
  let draw := if opt_bool (title m)
              then TitleDisplay.draw (title_display m) draw 0
              else draw in
  '(sf, draw) <- Starfield.update_and_draw (starfield m) draw ;;
  _ <- display draw ;;
  ret (mk (mqtt_client m) sf (title_display m) (title m)).

(** One iteration of [while True] (lines 294-320). *)
Definition iteration (m : t) : M t :=
  start_time <- time_time ;;
  m <- update_state m ;;
  m <- draw_frame m ;;
  finish <- time_time ;;
  let elapsed := (finish - start_time)%Q in
  let sleep_time := (1 / float FPS - elapsed)%Q in
  _ <- (if negb (Qle_bool sleep_time 0) then time_sleep sleep_time else ret tt) ;;
  ret m.

(** What happens to the program: the MQTT thread delivers a message, or the
    main thread runs one iteration. The main thread reads the store once per
    iteration, so every interleaving of the two threads is such a sequence. *)
Inductive Event :=
| Message (msg : ShairportMQTTClient.MQTTMessage)
| Frame.

Definition on_event (m : t) (e : Event) : M t :=
  match e with
  | Message msg =>
      ret (mk (ShairportMQTTClient._on_message (mqtt_client m) msg)
              (starfield m) (title_display m) (title m))
  | Frame => iteration m
  end.

Fixpoint run (m : t) (events : list Event) : M t :=
  match events with
  | [] => ret m
  | e :: rest => m <- on_event m e ;; run m rest
  end.

(** [n] iterations in a row. *)
Definition frames (n : nat) : list Event := repeat Frame n.

End WithPlatform.
End Main.

(** ** The arithmetic of a star in binary64 *)

Module Binary64.
Import Floats.PrimFloat Floats.SpecFloat Floats.FloatOps.

(** [float(n)] for an int below 2^63 in absolute value. *)
Definition of_int (n : Z) : float :=
  if n <? 0 then opp (of_uint63 (Uint63.of_Z (- n))) else of_uint63 (Uint63.of_Z n).

(** [int(x)]: [None] stands for the exception raised on an infinity or a
    NaN. *)
Definition to_int (x : float) : option Z :=
  match Prim2SF x with
  | S754_zero _ => Some 0
  | S754_finite s m e =>
      let a := if 0 <=? e then Zpos m * 2 ^ e else Zpos m / 2 ^ (- e) in
      Some (if s then - a else a)
  | _ => None
  end.

(** [STAR_Z_STEP = 0.2], that is the binary64 number nearest to 1/5. *)
Definition STAR_Z_STEP : float := 0x1.999999999999ap-3%float.

(** Lines 184-188, on the depth of the star. *)
Definition next_depth (max_depth : Z) (depth : float) : float :=
  let depth := (depth - STAR_Z_STEP)%float in
  if (depth <=? 0)%float then of_int max_depth else depth.

(** Lines 190-192, on one coordinate of the star. *)
Definition project (coordinate depth : float) (origin : Z) : option Z :=
  let k := (128 / depth)%float in
  to_int (coordinate * k + of_int origin)%float.

(** Line 197. *)
Definition near (depth : float) (max_depth : Z) : bool :=
  (2 <=? (1 - depth / of_int max_depth) * 4)%float.

(** The first [n] depths of a star created at depth [depth]. *)
Fixpoint orbit (n : nat) (max_depth : Z) (depth : float) : list float :=
  match n with
  | O => []
  | S n' => depth :: orbit n' max_depth (next_depth max_depth depth)
  end.

(** The depths of the stars of [main]: they are created at 1, ..., 31 and
    respawned at 32, and a star is respawned within 161 ticks. *)
Definition depths32 : list float :=
  flat_map (fun c => orbit 170 32 (of_int (Z.of_nat c))) (seq 1 32).

Definition member (depth : float) (l : list float) : bool :=
  existsb (Leibniz.eqb depth) l.

Definition depth_ok (max_depth : Z) (depth : float) : bool :=
  ((0 <? depth) && (depth <=? of_int max_depth))%float.

End Binary64.

(** * Further definitions *)

(** ** Further predicates on the starfield *)

Module StarfieldFacts.
Import Starfield.

(** A star as [init_stars] creates it. *)
Definition created (max_depth : Z) (star : Star) : Prop :=
  exists a b c : Z,
    -25 <= a < 25 /\ -25 <= b < 25 /\ 1 <= c < max_depth /\
    star = mkStar (float a) (float b) (float c).

(** The coordinates of a star are integers of [-25, 25). *)
Definition coordinates_ok (star : Star) : Prop :=
  exists a b : Z,
    -25 <= a < 25 /\ -25 <= b < 25 /\
    star_0 star = float a /\ star_1 star = float b.

(** A point drawn for a star: in the rows of the viewport, and in its
    columns or in the column that follows them. *)
Definition star_point (self : t) (op : DrawOp) : Prop :=
  exists x y : Z,
    op = DrawPoint x y 255 /\
    vp_x self <= x <= vp_x self + vp_w self /\
    vp_y self <= y < vp_y self + vp_h self.


End StarfieldFacts.

(** ** Further definitions on the metadata store *)

Module StoreFacts.
Import ShairportMQTTClient.

(** The topics [_on_message] has a branch for. *)
Definition handled (self : t) : list str :=
  [ topic_base self ++ lit "/title";
    topic_base self ++ lit "/artist";
    topic_base self ++ lit "/active_start";
    topic_base self ++ lit "/active_end";
    topic_base self ++ lit "/play_end" ].

End StoreFacts.

(** ** Further predicates on the title display *)

Module TitleDisplayFacts.
Section WithPlatform.
Context `{Platform}.
Import TitleDisplay.

(** The offset is a whole number of pixels [k], a multiple of
    [SCROLL_SPEED], at rest ([k = 0]) or inside the text, and at rest on a
    centered title. *)
Definition offset_ok (self : t) (k : Z) : Prop :=
  scroll_offset self = inject_Z k /\
  0 <= k /\ k mod SCROLL_SPEED = 0 /\
  (k = 0 \/ k < text_width self) /\
  (is_scrolling self = false -> k = 0).

(** [n] calls of [update] in a row. *)
Fixpoint updates (n : nat) (self : t) : M t :=
  match n with
  | O => ret self
  | S n' => self <- update self ;; updates n' self
  end.

End WithPlatform.
End TitleDisplayFacts.

(** The world after [n] more readings of the clock. *)
Definition clock_read_n (n : nat) (w : World) : World :=
  mkWorld (clock w) (n + clock_reads w) (entropy w) (entropy_reads w)
          (slept w) (displayed w).

(** ** Further definitions on the main loop *)

(** Two worlds that differ at most by the random values drawn. *)
Definition same_but_entropy (w w' : World) : Prop :=
  clock w' = clock w /\ clock_reads w' = clock_reads w /\
  entropy w' = entropy w /\ slept w' = slept w /\ displayed w' = displayed w.

(** Two worlds that differ at most by the readings of the clock made. *)
Definition same_but_clock (w w' : World) : Prop :=
  clock w' = clock w /\ (clock_reads w <= clock_reads w')%nat /\
  entropy w' = entropy w /\ entropy_reads w' = entropy_reads w /\
  slept w' = slept w /\ displayed w' = displayed w.

Module MainFacts.
Section WithPlatform.
Context `{Platform}.
Import Main.

(** The states of the program: [setup], then any events. *)
Inductive reachable : t -> Prop :=
| reach_setup broker port user pass topic_base font w m w' :
    setup broker port user pass topic_base font w = Ok (m, w') -> reachable m
| reach_event m e w m' w' :
    reachable m -> on_event m e w = Ok (m', w') -> reachable m'.

(** The rows the stars are drawn in: below the title band when a title is
    shown. *)
Definition first_row (title : option str) : Z :=
  if opt_bool title then STAR_VIEW_Y_OFFSET else 0.



(** The time an iteration asks to sleep, by the readings of the clock at its
    start and at its end. *)
Definition sleep_time (start finish : Q) : Q := (1 / float FPS - (finish - start))%Q.

(** The texts of the title band in the frame of a state. *)
Definition band_texts (m : t) : Canvas :=
  if opt_bool (title m) then TitleDisplay.draw (title_display m) [] 0 else [].

(** The world at the end of an iteration that started in [w], whose steps 1
    and 2 ended in [w1] and whose drawing ended in [w2] with [frame]. *)
Definition world_after (w w1 w2 : World) (frame : Canvas) : World :=
  let pause := sleep_time (clock w (clock_reads w)) (clock w2 (clock_reads w2)) in
  mkWorld (clock w2) (S (clock_reads w2)) (entropy w2) (entropy_reads w2)
          (if negb (Qle_bool pause 0) then pause :: slept w2 else slept w2)
          (frame :: displayed w2).

End WithPlatform.
End MainFacts.

(** ** Bytes and images ([cover_display.py], [esp32-c3/mqtt_cover_translator.py]) *)

(** [range(n)] *)
Definition range (n : Z) : list Z := List.map Z.of_nat (seq 0 (Z.to_nat n)).

(** [l[n] = a] on a list, for an index in range. *)
Fixpoint list_set {A : Type} (l : list A) (n : nat) (a : A) : list A :=
  match l, n with
  | [], _ => []
  | _ :: r, O => a :: r
  | x :: r, S n' => x :: list_set r n' a
  end.

(** A [bytearray]. In this part [None] stands for a raised exception. *)
Definition bytearray := list Byte.byte.

(** [out[i] |= v]: [IndexError] off the array (a negative index counts from
    the end), [ValueError] when the result is not a byte. *)
Definition ior_item (out : bytearray) (i v : Z) : option bytearray :=
  let n := Z.of_nat (List.length out) in
  let j := if i <? 0 then i + n else i in
  if (0 <=? j) && (j <? n) then
    let b := Z.lor (Z.of_N (Byte.to_N (nth (Z.to_nat j) out Byte.x00))) v in
    if b <? 0 then None
    else match Byte.of_N (Z.to_N b) with
         | Some b' => Some (list_set out (Z.to_nat j) b')
         | None => None
         end
  else None.

(** A [for] loop whose body can raise. *)
Fixpoint for_each {A S : Type} (l : list A) (body : A -> S -> option S) (s : S)
  : option S :=
  match l with
  | [] => Some s
  | a :: r => match body a s with
              | Some s' => for_each r body s'
              | None => None
              end
  end.

(** The crop of both scripts (lines 70-73, resp. 72-75): the box
    [(left, top, right, bottom)] of the centred square of an image of size
    [(width, height)]. *)
Definition center_box (width height : Z) : Z * Z * Z * Z :=
  let min_dim := Z.min width height in
  let left := (width - min_dim) / 2 in
  let top := (height - min_dim) / 2 in
  (left, top, left + min_dim, top + min_dim).

(** What the scripts take from PIL. *)
Class Imaging := {
  Image : Type;
  (** [Image.open(io.BytesIO(payload))] *)
  image_open : list Byte.byte -> option Image;
  (** [img.convert(mode)] *)
  image_convert : Image -> string -> option Image;
  (** [img.size] *)
  image_size : Image -> Z * Z;
  (** [img.crop(box)] *)
  image_crop : Image -> Z * Z * Z * Z -> option Image;
  (** [img.resize(size, Image.Resampling.LANCZOS)] *)
  image_resize : Image -> Z * Z -> option Image;
  (** [img.load()[x, y]] *)
  image_load : Image -> Z -> Z -> Z;
  (** [a == b] on two images *)
  image_eqb : Image -> Image -> bool
}.

(** Lines 68-78 of the translator and 63-79 of [cover_display.py]: the cover
    as a square 1-bit image of side [size]. *)
Definition cover_bitmap `{Imaging} (payload : list Byte.byte) (size : Z)
  : option Image :=
  match image_open payload with
  | None => None
  | Some img =>
      match image_convert img "L" with
      | None => None
      | Some img =>
          let '(width, height) := image_size img in
          match image_crop img (center_box width height) with
          | None => None
          | Some img =>
              match image_resize img (size, size) with
              | None => None
              | Some img => image_convert img "1"
              end
          end
      end
  end.

Module CoverTranslator.

(** The [argparse.Namespace] of [parse_args]. *)
Record Args := mkArgs {
  host : str;
  port : Z;
  user : str;
  password : str;
  topic_in : str;
  topic_out : str;
  size : Z
}.

(** A call of [client.publish(topic, payload, retain=retain)]. *)
Record Publish := mkPublish {
  pub_topic : str;
  pub_payload : list Byte.byte;
  pub_retain : bool
}.

(** Lines 86-88: the body of the inner loop. *)
Definition pack_pixel (pixels : Z -> Z -> Z) (width y x : Z) (out : bytearray)
  : option bytearray :=
  if negb (pixels x y =? 0) then
    let idx := y * width + x in
    ior_item out (Z.shiftr idx 3) (Z.shiftl 1 (Z.land idx 7))
  else Some out.

(** Lines 81-89: the bitmap of an image, one bit per pixel. A negative
    length of [bytearray] raises [ValueError]. *)
Definition pack (pixels : Z -> Z -> Z) (width height : Z) : option (list Byte.byte) :=
  let count := (width * height + 7) / 8 in
  if count <? 0 then None
  else
    for_each (range height)
      (fun y out => for_each (range width) (pack_pixel pixels width y) out)
      (repeat Byte.x00 (Z.to_nat count)).

Definition _convert_cover `{Imaging} (args : Args) (payload : list Byte.byte)
  : option (list Byte.byte) :=
  match cover_bitmap payload (size args) with
  | None => None
  | Some img =>
      let pixels := image_load img in
      let '(width, height) := image_size img in
      pack pixels width height
  end.

(** [s.rstrip('/#')]: without its trailing ['/'] and ['#']. *)
Definition rstrip_slash_hash (s : str) : str :=
  let strippable c := N.eqb c 47 || N.eqb c 35 in
  rev ((fix drop (l : str) : str :=
          match l with
          | [] => []
          | c :: r => if strippable c then drop r else l
          end) (rev s)).

(** [s.startswith(p)] *)
Fixpoint startswith (s p : str) {struct p} : bool :=
  match p, s with
  | [], _ => true
  | _ :: _, [] => false
  | c :: p', d :: s' => N.eqb c d && startswith s' p'
  end.

Definition bytes_eqb (a b : list Byte.byte) : bool :=
  if list_eq_dec Byte.byte_eq_dec a b then true else false.

(** What [_on_message] publishes for a message (the [print]s are not
    modelled). *)
Definition _on_message `{Imaging} (args : Args)
  (msg : ShairportMQTTClient.MQTTMessage) : list Publish :=
  let topic_in_base := rstrip_slash_hash (topic_in args) in
  if negb (startswith (ShairportMQTTClient.topic msg) (topic_in_base ++ lit "/"))
  then []
  else
    let subtopic :=
      skipn (List.length topic_in_base + 1) (ShairportMQTTClient.topic msg) in
    let new_topic := topic_out args ++ lit "/" ++ subtopic in
    if str_eqb subtopic (lit "cover") then
      let payload := ShairportMQTTClient.payload msg in
      if bytes_eqb payload (list_byte_of_string "--") then
        [mkPublish new_topic payload true]
      else
        match _convert_cover args payload with
        | Some bitmap => [mkPublish new_topic bitmap true]
        | None => []
        end
    else [mkPublish new_topic (ShairportMQTTClient.payload msg) true].

(** Bit [idx] of a bitmap, the lowest bit of a byte first. *)
Definition bit (out : list Byte.byte) (idx : Z) : bool :=
  Z.testbit (Z.of_N (Byte.to_N (nth (Z.to_nat (idx / 8)) out Byte.x00))) (idx mod 8).

(** The bits set so far: [covered i] tells whether bit [i] is set. *)
Definition packed (len : nat) (covered : Z -> bool) (out : bytearray) : Prop :=
  List.length out = len /\ forall i, 0 <= i -> bit out i = covered i.

End CoverTranslator.

(** ** [cover_display.py] *)

Module CoverDisplay.

(** Lines 17-30. *)
Definition WIDTH : Z := 128.
Definition HEIGHT : Z := 64.
Definition MQTT_TOPIC_BASE : str := lit "iotstack/shairport".
Definition COVER_SIZE : Z := 48.
Definition DISPLAY_TIMEOUT : Z := 5 * 60.

Section WithLibraries.
Context `{Platform} `{Imaging}.

(** The fields of a [CoverTest] that [_lock] guards. *)
Record CoverTest := mkCoverTest {
  cover_image : option Image;
  title : option str;
  artist : option str;
  last_activity : Q
}.

Definition __init__ : M CoverTest :=
  now <- time_time ;;
  ret (mkCoverTest None None None now).

(** Lines 56-106. Whatever the cover branch raises is caught (line 86) and
    leaves the object as it was. *)
Definition _on_message (self : CoverTest) (msg : ShairportMQTTClient.MQTTMessage)
  : M CoverTest :=
  let topic := ShairportMQTTClient.topic msg in
  let payload := ShairportMQTTClient.payload msg in
  if str_eqb topic (MQTT_TOPIC_BASE ++ lit "/cover") then
    match cover_bitmap payload COVER_SIZE with
    | Some img =>
        ret (mkCoverTest (Some img) (title self) (artist self) (last_activity self))
    | None => ret self
    end
  else if str_eqb topic (MQTT_TOPIC_BASE ++ lit "/title") then
    ret (mkCoverTest (cover_image self) (Some (strip (decode_utf8_ignore payload)))
           (artist self) (last_activity self))
  else if str_eqb topic (MQTT_TOPIC_BASE ++ lit "/artist") then
    let artist := Some (strip (decode_utf8_ignore payload)) in
    now <- time_time ;;
    ret (mkCoverTest (cover_image self) (title self) artist now)
  else if str_eqb topic (MQTT_TOPIC_BASE ++ lit "/play_start")
          || str_eqb topic (MQTT_TOPIC_BASE ++ lit "/play_resume") then
    now <- time_time ;;
    ret (mkCoverTest (cover_image self) (title self) (artist self) now)
  else if str_eqb topic (MQTT_TOPIC_BASE ++ lit "/play_end") then
    ret self
  else ret self.

Definition get_cover (self : CoverTest) : option Image := cover_image self.

Definition get_info (self : CoverTest) : option str * option str :=
  (artist self, title self).

Definition is_timed_out (self : CoverTest) : M bool :=
  now <- time_time ;;
  ret (negb (Qle_bool (now - last_activity self) (float DISPLAY_TIMEOUT))).

Definition reset_activity (self : CoverTest) : M CoverTest :=
  now <- time_time ;;
  ret (mkCoverTest (cover_image self) (title self) (artist self) now).

(** The image [create_layout_left] returns: black, with the cover pasted at
    [pasted_at] and the texts of [drawn] on it. *)
Record Layout := mkLayout {
  pasted : Image;
  pasted_at : Z * Z;
  drawn : Canvas
}.

(** Lines 218 and 223: [s[:12] + "..." if len(s) > 15 else s]. *)
Definition display_text (s : str) : str :=
  if 15 <? Z.of_nat (List.length s) then firstn 12 s ++ lit "..." else s.

(** Lines 190-226. The font only changes the glyphs. *)
Definition create_layout_left (cover : Image) (artist title : option str) : Layout :=
  let draw := [] in
  let text_x := COVER_SIZE + 4 in
  let draw := match artist with
              | Some s => if str_bool s
                          then DrawText text_x 8 (display_text s) 255 :: draw
                          else draw
              | None => draw
              end in
  let draw := match title with
              | Some s => if str_bool s
                          then DrawText text_x 28 (display_text s) 255 :: draw
                          else draw
              | None => draw
              end in
  mkLayout cover (0, (HEIGHT - COVER_SIZE) / 2) draw.

(** What [main] does to the device, after its setup. *)
Inductive DeviceOp :=
| Hide
| Show
| Display (img : Layout)
| Draw (c : Canvas).

(** The local variables of [main] (lines 147-150). *)
Record Loop := mkLoop {
  last_cover : option Image;
  last_artist : option str;
  last_title : option str;
  display_is_off : bool
}.

(** [a != b] on [Optional[Image]] and on [Optional[str]]. *)
Definition image_ne (a b : option Image) : bool :=
  match a, b with
  | None, None => false
  | Some x, Some y => negb (image_eqb x y)
  | _, _ => true
  end.

Definition str_ne (a b : option str) : bool :=
  match a, b with
  | None, None => false
  | Some x, Some y => negb (str_eqb x y)
  | _, _ => true
  end.

(** Lines 158-180, from the values read at lines 154-156. The commands to
    the device are collected in [ops], the latest first. *)
Definition loop_body (cover : option Image) (artist title : option str)
  (timed_out : bool) (st : Loop) (ops : list DeviceOp) : Loop * list DeviceOp :=
  let '(display_is_off, ops) :=
    if timed_out && negb (display_is_off st) then (true, Hide :: ops)
    else if negb timed_out && display_is_off st then (false, Show :: ops)
    else (display_is_off st, ops) in
  if negb display_is_off
     && (image_ne cover (last_cover st) || str_ne artist (last_artist st)
         || str_ne title (last_title st))
  then
    (mkLoop cover artist title display_is_off,
     match cover with
     | Some c => Display (create_layout_left c artist title) :: ops
     | None => Draw [DrawText 10 (HEIGHT / 2 - 5) (lit "Waiting for cover...") 255]
               :: ops
     end)
  else (mkLoop (last_cover st) (last_artist st) (last_title st) display_is_off, ops).

(** One iteration of [while True] (lines 154-182) when no message arrives
    between its three readings of the store. *)
Definition iteration (cover_test : CoverTest) (st : Loop) (ops : list DeviceOp)
  : M (Loop * list DeviceOp) :=
  let cover := get_cover cover_test in
  let '(artist, title) := get_info cover_test in
  timed_out <- is_timed_out cover_test ;;
  let '(st, ops) := loop_body cover artist title timed_out st ops in
  _ <- time_sleep (1 # 10) ;;
  ret (st, ops).

(** The program between two events: the store, the variables of the loop and
    the commands sent to the device. *)
Record t := mk {
  cover_test : CoverTest;
  loop : Loop;
  sent : list DeviceOp
}.

(** Lines 141-150. *)
Definition setup : M t :=
  cover_test <- __init__ ;;
  ret (mk cover_test (mkLoop None None None false) []).

Inductive Event :=
| Message (msg : ShairportMQTTClient.MQTTMessage)
| Tick.

Definition on_event (m : t) (e : Event) : M t :=
  match e with
  | Message msg =>
      cover_test <- _on_message (cover_test m) msg ;;
      ret (mk cover_test (loop m) (sent m))
  | Tick =>
      '(st, ops) <- iteration (cover_test m) (loop m) (sent m) ;;
      ret (mk (cover_test m) st ops)
  end.

Fixpoint run (m : t) (events : list Event) : M t :=
  match events with
  | [] => ret m
  | e :: rest => m <- on_event m e ;; run m rest
  end.

(** Whether the device shows its picture after the commands [ops]. *)
Fixpoint powered (ops : list DeviceOp) : bool :=
  match ops with
  | [] => true
  | Hide :: _ => false
  | Show :: _ => true
  | _ :: rest => powered rest
  end.

(** The commands [ops] never hide a hidden device, never show a shown one
    and never draw on a hidden one. *)
Fixpoint orderly (ops : list DeviceOp) : bool :=
  match ops with
  | [] => true
  | Show :: rest => negb (powered rest) && orderly rest
  | _ :: rest => powered rest && orderly rest
  end.

(** The messages that count as activity. *)
Definition is_activity (msg : ShairportMQTTClient.MQTTMessage) : bool :=
  let topic := ShairportMQTTClient.topic msg in
  str_eqb topic (MQTT_TOPIC_BASE ++ lit "/artist")
  || str_eqb topic (MQTT_TOPIC_BASE ++ lit "/play_start")
  || str_eqb topic (MQTT_TOPIC_BASE ++ lit "/play_resume").

(** The states of the program: after [setup] and any events. *)
Inductive reachable : t -> Prop :=
| reachable_setup (w w' : World) (m : t) :
    setup w = Ok (m, w') -> reachable m
| reachable_event (m m' : t) (e : Event) (w w' : World) :
    reachable m -> on_event m e w = Ok (m', w') -> reachable m'.

End WithLibraries.
End CoverDisplay.

(** ** A platform and inputs for the examples *)

(** ASCII payloads (on them UTF-8 decoding is the identity, and a byte that
    is not ASCII is dropped here), the ASCII white space of [str.isspace],
    and a font given by the width it draws a text with. *)
Definition ascii_decode (bs : list Byte.byte) : str :=
  filter (fun c => N.ltb c 128) (List.map Byte.to_N bs).

Definition ascii_isspace (c : codepoint) : bool :=
  (N.leb 9 c && N.leb c 13) || (N.leb 28 c && N.leb c 32).

#[local] Instance example_platform : Platform := {|
  decode_utf8_ignore := ascii_decode;
  isspace := ascii_isspace;
  Font := str -> Z;
  textbbox := fun font text => (0, 0, inject_Z (font text), 16)%Q
|}.

(** The bytes of an ASCII literal. *)
Definition bytes_of (s : string) : list Byte.byte := list_byte_of_string s.
Arguments bytes_of s%_string.

(** A font whose characters are 4 pixels wide, with 6 pixels around a text. *)
Definition small_font : str -> Z := fun text => 4 * Z.of_nat (List.length text) + 6.

(** A font whose characters are 8 pixels wide. *)
Definition wide_font : str -> Z := fun text => 8 * Z.of_nat (List.length text).

Definition example_base : str := lit "iotstack/shairport".

Definition example_store : ShairportMQTTClient.t :=
  ShairportMQTTClient.__init__ (lit "localhost") 1883 [] [] example_base.

Definition msg_to (suffix : string) (text : string) : ShairportMQTTClient.MQTTMessage :=
  ShairportMQTTClient.mkMsg (example_base ++ lit suffix) (bytes_of text).

(** Random sources whose first star is [7, 0, 15], respectively [3, 0, 13];
    every other value is the least of its range. *)
Definition edge_entropy (n : nat) : Z :=
  match n with 0%nat => 32 | 1%nat => 25 | 2%nat => 14 | _ => 0 end.

Definition narrow_entropy (n : nat) : Z :=
  match n with 0%nat => 28 | 1%nat => 25 | 2%nat => 12 | _ => 0 end.

(** The second example of the specification, and a session in which it is
    played, stopped and played again. *)
Definition long_title : string := "A Very Long Song Title Indeed".

Definition play_long_title : list Main.Event :=
  Main.Message (msg_to "/title" long_title) :: Main.frames 25.

Definition stop_and_replay : list Main.Event :=
  [ Main.Message (msg_to "/active_end" "");
    Main.Frame;
    Main.Message (msg_to "/title" long_title);
    Main.Frame ].

(** A store holding the third example of the specification. *)
Definition band_track : list ShairportMQTTClient.MQTTMessage :=
  [ msg_to "/active_start" ""; msg_to "/title" "Track"; msg_to "/artist" "Band" ].

(** A starfield of two stars, as [Starfield(128, 64, 2, 32)] builds it from
    [edge_entropy]. *)
Definition two_stars : Starfield.t :=
  Starfield.mk 128 64 2 32
    [ Starfield.mkStar (float 7) (float 0) (float 15);
      Starfield.mkStar (float (-25)) (float (-25)) (float 1) ]
    0 0 128 64 64 32.

(** A new title display, 60 pixels wide. *)
Definition narrow_display : TitleDisplay.t := TitleDisplay.__init__ 60 small_font.

(** A title display that scrolls the long title, 2 pixels before its end. *)
Definition scrolling_display : TitleDisplay.t :=
  TitleDisplay.mk 128 wide_font (Some (lit long_title))
    (lit long_title ++ lit "   ") true 254 256 0 false.

(** The program while it scrolls the long title. *)
Definition replay_state : Main.t :=
  Main.mk (ShairportMQTTClient.deliver example_store [msg_to "/title" long_title])
          two_stars scrolling_display (Some (lit long_title)).

(** The program as [main] starts it, with the 8-pixel font. *)
Definition started : M Main.t :=
  Main.setup (lit "localhost") 1883 [] [] example_base wide_font.

(** A world whose clock advances by [dt] at each reading and whose random
    source is [e]. *)
Definition world_of (dt : Q) (e : nat -> Z) : World :=
  mkWorld (fun n => inject_Z (Z.of_nat n) * dt)%Q 0 e 0 [] [].

(** A stand-in for PIL in the examples. An image is its size and its pixels,
    row by row; a payload holds the width, the height, then the pixels, one
    byte each. Converting to ["1"] takes 128 as the threshold, resizing takes
    the nearest pixel. *)
Record raw_image := mkRaw {
  raw_width : Z;
  raw_height : Z;
  raw_pixels : list Z
}.

Definition raw_pixel (img : raw_image) (x y : Z) : Z :=
  nth (Z.to_nat (y * raw_width img + x)) (raw_pixels img) 0.

Definition raw_build (width height : Z) (f : Z -> Z -> Z) : raw_image :=
  mkRaw width height
    (flat_map (fun y => List.map (fun x => f x y) (range width)) (range height)).

Definition raw_open (payload : list Byte.byte) : option raw_image :=
  match List.map (fun b => Z.of_N (Byte.to_N b)) payload with
  | width :: height :: pixels =>
      if Z.of_nat (List.length pixels) =? width * height
      then Some (mkRaw width height pixels)
      else None
  | _ => None
  end.

Definition raw_convert (img : raw_image) (mode : string) : option raw_image :=
  if String.eqb mode "1" then
    Some (raw_build (raw_width img) (raw_height img)
            (fun x y => if 128 <=? raw_pixel img x y then 255 else 0))
  else if String.eqb mode "L" then Some img
  else None.

Definition raw_crop (img : raw_image) (box : Z * Z * Z * Z) : option raw_image :=
  let '(x0, y0, x1, y1) := box in
  Some (raw_build (x1 - x0) (y1 - y0) (fun x y => raw_pixel img (x + x0) (y + y0))).

Definition raw_resize (img : raw_image) (size : Z * Z) : option raw_image :=
  let '(width, height) := size in
  if (0 <? width) && (0 <? height) then
    Some (raw_build width height
            (fun x y => raw_pixel img (x * raw_width img / width)
                                      (y * raw_height img / height)))
  else None.

Fixpoint pixels_eqb (a b : list Z) : bool :=
  match a, b with
  | [], [] => true
  | x :: a', y :: b' => (x =? y) && pixels_eqb a' b'
  | _, _ => false
  end.

Definition raw_eqb (a b : raw_image) : bool :=
  (raw_width a =? raw_width b) && (raw_height a =? raw_height b)
  && pixels_eqb (raw_pixels a) (raw_pixels b).

#[local] Instance example_imaging : Imaging := {|
  Image := raw_image;
  image_open := raw_open;
  image_convert := raw_convert;
  image_size := fun img => (raw_width img, raw_height img);
  image_crop := raw_crop;
  image_resize := raw_resize;
  image_load := raw_pixel;
  image_eqb := raw_eqb
|}.

(** A cover of 4 by 2 pixels, and what the translator makes of it with
    [--size 4]. *)
Definition example_cover : list Byte.byte :=
  [ Byte.x04; Byte.x02;
    Byte.xc8; Byte.x00; Byte.xc8; Byte.x00;
    Byte.x00; Byte.xc8; Byte.x00; Byte.xc8 ].

Definition example_bitmap : raw_image :=
  mkRaw 4 4 [ 0; 0; 255; 255;  0; 0; 255; 255;  255; 255; 0; 0;  255; 255; 0; 0 ].

Definition example_args : CoverTranslator.Args :=
  CoverTranslator.mkArgs (lit "localhost") 1883 [] []
    (lit "iotstack/shairport/#") (lit "iotstack/shairport-extension") 4.

(** A session of the cover display, on a clock that advances by 200 seconds
    at each reading: the display goes off at the second tick and comes back
    at the fourth, after the artist has arrived. *)
Definition cover_session : list CoverDisplay.Event :=
  [ CoverDisplay.Tick;
    CoverDisplay.Message (msg_to "/title" "Track");
    CoverDisplay.Tick;
    CoverDisplay.Tick;
    CoverDisplay.Message (msg_to "/artist" "Band");
    CoverDisplay.Tick ].

(** A store of the cover display that holds a title, and the variables of
    the loop before its first tick. *)
Definition titled_store : CoverDisplay.CoverTest :=
  CoverDisplay.mkCoverTest None (Some (lit "Track")) None 0.

Definition first_loop : CoverDisplay.Loop :=
  CoverDisplay.mkLoop None None None false.

(** The variables of the loop after the first tick on [titled_store]. *)
Definition drawn_loop : CoverDisplay.Loop :=
  CoverDisplay.mkLoop None None (Some (lit "Track")) false.

(** The cover display at the end of the session. *)
Definition session_end : CoverDisplay.t :=
  CoverDisplay.mk
    (CoverDisplay.mkCoverTest None (Some (lit "Track")) (Some (lit "Band")) 800)
    (CoverDisplay.mkLoop None (Some (lit "Band")) (Some (lit "Track")) false)
    [ CoverDisplay.Draw [DrawText 10 27 (lit "Waiting for cover...") 255];
      CoverDisplay.Show; CoverDisplay.Hide ].

(** A new title display, 128 pixels wide, the same as [set_title] leaves it
    for the long title, and the same when its wait is over. *)
Definition wide_display : TitleDisplay.t := TitleDisplay.__init__ 128 wide_font.

Definition waiting_display : TitleDisplay.t :=
  TitleDisplay.mk 128 wide_font (Some (lit long_title))
    (lit long_title ++ lit "   ") true 0 256 0 true.

Definition moving_display : TitleDisplay.t :=
  TitleDisplay.mk 128 wide_font (Some (lit long_title))
    (lit long_title ++ lit "   ") true 0 256 0 false.

(** The narrow display as [set_title] leaves it for the first example of
    the specification. *)
Definition yesterday_display : TitleDisplay.t :=
  TitleDisplay.mk 60 small_font (Some (lit "Yesterday")) (lit "- Yesterday -")
    false 0 58 0 true.

(** * Properties *)

(** Splits a conjunction into its parts. *)
Ltac split_all := repeat match goal with |- _ /\ _ => split end.

(** ** Strings *)

Lemma str_eqb_eq (a b : str) : str_eqb a b = true <-> a = b.
Proof.
  revert b; induction a as [|x a IH]; intros [|y b]; simpl; split;
    try congruence; try reflexivity.
  - intros E. apply andb_true_iff in E. destruct E as [E1 E2].
    apply N.eqb_eq in E1. apply IH in E2. congruence.
  - intros E. injection E as -> ->. rewrite N.eqb_refl. simpl.
    apply IH. reflexivity.
Qed.

Lemma str_eqb_refl (a : str) : str_eqb a a = true.
Proof. apply str_eqb_eq. reflexivity. Qed.

Lemma str_eqb_app_l (p a b : str) : str_eqb (p ++ a) (p ++ b) = str_eqb a b.
Proof.
  induction p as [|x p IH]; simpl; [reflexivity|].
  rewrite N.eqb_refl. exact IH.
Qed.

Lemma str_bool_true (s : str) : str_bool s = true <-> s <> [].
Proof. destruct s; simpl; split; congruence. Qed.

(** ** The metadata store *)

Section StoreProperties.
Context `{Platform}.
Import ShairportMQTTClient.

Lemma normalize_not_empty (p : str) : normalize p <> Some [].
Proof.
  unfold normalize. destruct p; simpl; [congruence|].
  destruct (negb _); congruence.
Qed.

Lemma on_message_normalized (s : t) (msg : MQTTMessage) :
  normalized s -> normalized (_on_message s msg).
Proof.
  intros [Ht Ha]. unfold _on_message, normalized.
  repeat match goal with
         | |- context [if ?b then _ else _] => destruct b
         end; simpl; repeat split;
    auto using normalize_not_empty; congruence.
Qed.

Lemma reachable_normalized (s : t) : reachable s -> normalized s.
Proof.
  induction 1 as [broker port user pass base | s _ IH | s _ IH | s msg _ IH].
  - split; simpl; congruence.
  - exact IH.
  - exact IH.
  - apply on_message_normalized. exact IH.
Qed.

Lemma deliver_reachable (msgs : list MQTTMessage) (s : t) :
  reachable s -> reachable (deliver s msgs).
Proof.
  revert s. unfold deliver.
  induction msgs as [|m msgs IH]; intros s Hs; simpl; [exact Hs|].
  apply IH. apply reach_message. exact Hs.
Qed.

Lemma on_message_artist (s : t) (p : list Byte.byte) :
  _on_message s (mkMsg (topic_base s ++ lit "/artist") p)
  = mk (broker s) (port s) (topic_base s) (_title s)
       (normalize (strip (decode_utf8_ignore p))) (_is_active s) (_connected s).
Proof.
  unfold _on_message. simpl topic. simpl payload.
  rewrite str_eqb_app_l. change (str_eqb (lit "/artist") (lit "/title")) with false.
  cbv iota. rewrite str_eqb_refl. reflexivity.
Qed.

Lemma on_message_title (s : t) (p : list Byte.byte) :
  _on_message s (mkMsg (topic_base s ++ lit "/title") p)
  = mk (broker s) (port s) (topic_base s)
       (normalize (strip (decode_utf8_ignore p))) (_artist s)
       (_is_active s) (_connected s).
Proof.
  unfold _on_message. simpl topic. simpl payload.
  rewrite str_eqb_refl. reflexivity.
Qed.

Lemma artists_keep_title (msgs : list MQTTMessage) (s : t) :
  Forall (fun m => topic m = topic_base s ++ lit "/artist") msgs ->
  _title (deliver s msgs) = _title s /\ topic_base (deliver s msgs) = topic_base s.
Proof.
  revert s. unfold deliver.
  induction msgs as [|m msgs IH]; intros s Hall; simpl; [split; reflexivity|].
  inversion Hall as [|m' l' Hm Hrest]; subst.
  destruct m as [tp p]. simpl in Hm. subst tp.
  rewrite on_message_artist.
  destruct (IH (mk (broker s) (port s) (topic_base s) (_title s)
                   (normalize (strip (decode_utf8_ignore p)))
                   (_is_active s) (_connected s)) Hrest) as [E1 E2].
  split; assumption.
Qed.

Lemma display_title_of (s : t) :
  normalized s ->
  get_display_title s =
    match _title s, _artist s with
    | None, _ => None
    | Some title, None => Some title
    | Some title, Some artist => Some (artist ++ lit " - " ++ title)
    end.
Proof.
  intros [Ht Ha]. unfold get_display_title.
  destruct (_title s) as [[|c title]|]; simpl.
  - elim Ht. reflexivity.
  - destruct (_artist s) as [[|d artist]|]; simpl; [|reflexivity..].
    elim Ha. reflexivity.
  - destruct (_artist s); reflexivity.
Qed.

(** C2. In every state the store reaches, the display title is absent
    exactly when the title is; with a title it is "artist - title" when there
    is an artist and the title alone otherwise; and when the title is absent,
    artist messages alone, however many, leave the display title absent. *)
Theorem display_title_none_iff_title_none :
  forall s : t,
    reachable s ->
    (get_display_title s = None <-> _title s = None) /\
    (forall title artist, _title s = Some title -> _artist s = Some artist ->
       get_display_title s = Some (artist ++ lit " - " ++ title)) /\
    (forall title, _title s = Some title -> _artist s = None ->
       get_display_title s = Some title) /\
    (forall artists : list MQTTMessage,
       _title s = None ->
       Forall (fun m => topic m = topic_base s ++ lit "/artist") artists ->
       get_display_title (deliver s artists) = None).
Proof.
  intros s Hr.
  pose proof (display_title_of s (reachable_normalized s Hr)) as Hd.
  split_all.
  - split; intros E.
    + rewrite Hd in E. destruct (_title s); [|reflexivity].
      destruct (_artist s); discriminate.
    + rewrite Hd, E. reflexivity.
  - intros title artist Et Ea. rewrite Hd, Et, Ea. reflexivity.
  - intros title Et Ea. rewrite Hd, Et, Ea. reflexivity.
  - intros artists Et Hall.
    destruct (artists_keep_title artists s Hall) as [E _].
    unfold get_display_title. rewrite E, Et. reflexivity.
Qed.

(** C8. A session-end message clears title and artist (and closes the
    session); a track-end message clears title and artist and changes no
    other field, the session flag included. *)
Theorem end_events_clear_title_and_artist :
  forall (s : t) (p : list Byte.byte),
    _on_message s (mkMsg (topic_base s ++ lit "/active_end") p)
      = mk (broker s) (port s) (topic_base s) None None false (_connected s)
    /\
    _on_message s (mkMsg (topic_base s ++ lit "/play_end") p)
      = mk (broker s) (port s) (topic_base s) None None (_is_active s) (_connected s).
Proof.
  intros s p. unfold _on_message. simpl topic.
  rewrite !str_eqb_app_l.
  split; vm_compute; reflexivity.
Qed.

(** C10. A title or artist message whose decoded and stripped payload is
    empty, or is the sentinel "--", is stored as absent; and whatever the
    store holds, the display title it returns is never the empty string. *)
Theorem empty_payload_is_absent :
  forall (s : t) (p : list Byte.byte),
    strip (decode_utf8_ignore p) = [] \/ strip (decode_utf8_ignore p) = lit "--" ->
    _title (_on_message s (mkMsg (topic_base s ++ lit "/title") p)) = None /\
    _artist (_on_message s (mkMsg (topic_base s ++ lit "/artist") p)) = None /\
    (forall (s' : t) (shown : str), get_display_title s' = Some shown -> shown <> []).
Proof.
  intros s p Hp. rewrite on_message_title, on_message_artist. simpl.
  repeat split.
  - destruct Hp as [-> | ->]; reflexivity.
  - destruct Hp as [-> | ->]; reflexivity.
  - intros s' shown. unfold get_display_title.
    destruct (_title s') as [[|c title]|]; simpl; try discriminate.
    destruct (_artist s') as [[|d artist]|]; simpl; intros E;
      injection E as <-; discriminate.
Qed.

End StoreProperties.

(** ** The monad *)

Lemma bind_ok {A B} (m : M A) (k : A -> M B) (w w' : World) (a : A) :
  m w = Ok (a, w') -> bind m k w = k a w'.
Proof. intros E. unfold bind. rewrite E. reflexivity. Qed.

Lemma bind_inv {A B} (m : M A) (k : A -> M B) (w w2 : World) (b : B) :
  bind m k w = Ok (b, w2) ->
  exists a w1, m w = Ok (a, w1) /\ k a w1 = Ok (b, w2).
Proof.
  unfold bind. destruct (m w) as [[a w1]|e]; [|discriminate].
  intros E. exists a, w1. split; [reflexivity|exact E].
Qed.

Lemma randrange_range (a b v : Z) (w w' : World) :
  randrange a b w = Ok (v, w') -> a <= v < b.
Proof.
  unfold randrange. destruct (Z.ltb_spec a b) as [Hab|Hab]; [|discriminate].
  intros E. injection E as <- <-.
  pose proof (Z.mod_pos_bound (entropy w (entropy_reads w)) (b - a)). lia.
Qed.

Lemma float_div_run (a b : Q) (w : World) :
  ~ (b == 0)%Q -> float_div a b w = Ok ((a / b)%Q, w).
Proof.
  intros Hb. unfold float_div.
  destruct (Qeq_bool b 0) eqn:E; [|reflexivity].
  apply Qeq_bool_iff in E. contradiction.
Qed.

(** ** The starfield *)

Section StarfieldProperties.
Import Starfield.

Lemma move_star_respawn (self : t) (star : Star) (w : World) :
  (star_2 star - STAR_Z_STEP <= 0)%Q ->
  move_star self star w = Ok (respawned self w, entropy_read (entropy_read w)).
Proof.
  intros Hz. unfold move_star. cbn [star_2].
  apply Qle_bool_iff in Hz. rewrite Hz. reflexivity.
Qed.

Lemma move_star_keep (self : t) (star : Star) (w : World) :
  (0 < star_2 star - STAR_Z_STEP)%Q ->
  move_star self star w
  = Ok (mkStar (star_0 star) (star_1 star) (star_2 star - STAR_Z_STEP), w).
Proof.
  intros Hz. unfold move_star. cbn [star_2].
  destruct (Qle_bool (star_2 star - STAR_Z_STEP) 0) eqn:E; [|reflexivity].
  apply Qle_bool_iff in E. exfalso. apply (Qlt_not_le _ _ Hz E).
Qed.

Lemma move_star_depth_ok (self : t) (star : Star) (w : World) :
  depth_ok self star ->
  exists star', (move_star self star w = Ok (star', w)
                 \/ move_star self star w = Ok (star', entropy_read (entropy_read w)))
                /\ depth_ok self star'.
Proof.
  intros [Hpos Hle].
  destruct (Qlt_le_dec 0 (star_2 star - STAR_Z_STEP)) as [Hk|Hr].
  - eexists. split; [left; apply move_star_keep; exact Hk|].
    split; cbn [star_2]; [exact Hk|].
    unfold STAR_Z_STEP. lra.
  - eexists. split; [right; apply move_star_respawn; exact Hr|].
    split; cbn [star_2 respawned]; [|apply Qle_refl].
    eapply Qlt_le_trans; eassumption.
Qed.

Lemma draw_star_total (self : t) (star : Star) (draw : Canvas) (w : World) :
  depth_ok self star ->
  exists draw', draw_star self star draw w = Ok (draw', w).
Proof.
  intros [Hpos Hle]. unfold draw_star.
  assert (Hz : ~ (star_2 star == 0)%Q) by (intros E; rewrite E in Hpos; inversion Hpos).
  assert (Hm : ~ (float (max_depth self) == 0)%Q).
  { intros E. rewrite E in Hle. apply (Qlt_not_le _ _ Hpos Hle). }
  rewrite (bind_ok _ _ _ _ _ (float_div_run 128 _ w Hz)).
  destruct (in_viewport _ _ _); [|eexists; reflexivity].
  rewrite (bind_ok _ _ _ _ _ (float_div_run _ _ w Hm)).
  destruct (Qle_bool _ _); eexists; reflexivity.
Qed.

Lemma star_tick_depth_ok (self : t) (star : Star) (draw : Canvas) (w : World) :
  depth_ok self star ->
  exists star' draw' w', star_tick self star draw w = Ok (star', draw', w')
                         /\ depth_ok self star'.
Proof.
  intros Hs. unfold star_tick.
  destruct (move_star_depth_ok self star w Hs) as (star' & [Hrun|Hrun] & Hok).
  - destruct (draw_star_total self star' draw w Hok) as (d1 & Hd).
    exists star', d1, w. split; [|exact Hok].
    rewrite (bind_ok _ _ _ _ _ Hrun), (bind_ok _ _ _ _ _ Hd). reflexivity.
  - destruct (draw_star_total self star' draw (entropy_read (entropy_read w)) Hok)
      as (d1 & Hd).
    exists star', d1, (entropy_read (entropy_read w)). split; [|exact Hok].
    rewrite (bind_ok _ _ _ _ _ Hrun), (bind_ok _ _ _ _ _ Hd). reflexivity.
Qed.

Lemma for_stars_depth_ok (self : t) (l : list Star) :
  Forall (depth_ok self) l ->
  forall (draw : Canvas) (w : World),
  exists l' draw' w', for_stars self l draw w = Ok (l', draw', w')
                      /\ Forall (depth_ok self) l'.
Proof.
  induction 1 as [|star l Hs Hl IH]; intros draw w; simpl.
  - exists [], draw, w. split; [reflexivity|constructor].
  - destruct (star_tick_depth_ok self star draw w Hs) as (star' & d1 & w1 & Hrun & Hok).
    destruct (IH d1 w1) as (l' & d2 & w2 & Hrest & Hall).
    exists (star' :: l'), d2, w2. split; [|constructor; assumption].
    rewrite (bind_ok _ _ _ _ _ Hrun). cbv beta iota.
    rewrite (bind_ok _ _ _ _ _ Hrest). reflexivity.
Qed.

Lemma for_stars_inv (self : t) (l : list Star) :
  Forall (depth_ok self) l ->
  forall (draw : Canvas) (w : World) l' draw' w',
  for_stars self l draw w = Ok (l', draw', w') -> Forall (depth_ok self) l'.
Proof.
  intros Hl draw w l' draw' w' E.
  destruct (for_stars_depth_ok self l Hl draw w) as (l2 & d2 & w2 & E2 & Hall).
  rewrite E in E2. injection E2 as -> -> ->. exact Hall.
Qed.

Lemma fresh_stars_depth_ok (n : nat) (md : Z) :
  forall (w : World) (l : list Star) (w' : World),
  fresh_stars n md w = Ok (l, w') ->
  Forall (fun star => (0 < star_2 star)%Q /\ (star_2 star <= float md)%Q) l.
Proof.
  induction n as [|n IH]; intros w l w' E; simpl in E.
  - injection E as <- <-. constructor.
  - apply bind_inv in E. destruct E as (a & w1 & _ & E).
    apply bind_inv in E. destruct E as (b & w2 & _ & E).
    apply bind_inv in E. destruct E as (c & w3 & Hc & E).
    apply bind_inv in E. destruct E as (rest & w4 & Hrest & E).
    injection E as <- <-.
    apply randrange_range in Hc.
    constructor; [|eapply IH; eassumption].
    cbn [star_2]. unfold float. split.
    + change (inject_Z 0 < inject_Z c)%Q. rewrite <- Zlt_Qlt. lia.
    + rewrite <- Zle_Qle. lia.
Qed.

End StarfieldProperties.

Section StarfieldInvariant.
Import Starfield.

Lemma reachable_depth_ok (self : t) :
  reachable self -> Forall (depth_ok self) (stars self).
Proof.
  induction 1 as [width height num_stars md w self w' E
                 | self x y w h _ IH
                 | self draw w self' draw' w' _ IH E].
  - unfold __init__, init_stars in E.
    apply bind_inv in E. destruct E as (s1 & w1 & E1 & E).
    injection E as <- <-.
    apply bind_inv in E1. destruct E1 as (l & w2 & El & E1).
    injection E1 as <- <-. cbn [stars max_depth] in *.
    apply fresh_stars_depth_ok in El. exact El.
  - exact IH.
  - unfold update_and_draw in E.
    apply bind_inv in E. destruct E as ([l d] & w1 & El & E).
    injection E as <- <- <-.
    apply (for_stars_inv self (stars self) IH draw w l d w1 El).
Qed.

Lemma update_and_draw_total (self : t) (draw : Canvas) (w : World) :
  Forall (depth_ok self) (stars self) ->
  exists self' draw' w',
    update_and_draw self draw w = Ok (self', draw', w')
    /\ Forall (depth_ok self') (stars self').
Proof.
  intros Hall.
  destruct (for_stars_depth_ok self (stars self) Hall draw w)
    as (l & d & w1 & E & Hl).
  eexists _, d, w1. split.
  - unfold update_and_draw. rewrite (bind_ok _ _ _ _ _ E). reflexivity.
  - exact Hl.
Qed.


(** What one star adds to the canvas. When its projected point is outside
    the viewport, nothing; when it is inside, that point, followed for a
    near star by the point to its right, which is drawn without a test. *)
Lemma draw_star_clip (self : t) (star : Star) (draw draw' : Canvas) (w w' : World) :
  draw_star self star draw w = Ok (draw', w') ->
  let k := (128 / star_2 star)%Q in
  let x := int_of_float (star_0 star * k + float (origin_x self)) in
  let y := int_of_float (star_1 star * k + float (origin_y self)) in
  (in_viewport self x y = false /\ draw' = draw) \/
  (in_viewport self x y = true /\
   (draw' = DrawPoint x y 255 :: draw
    \/ draw' = DrawPoint (x + 1) y 255 :: DrawPoint x y 255 :: draw)).
Proof.
  unfold draw_star. intros E.
  apply bind_inv in E. destruct E as (k & w1 & Ek & E).
  unfold float_div in Ek. destruct (Qeq_bool _ _); [discriminate|].
  injection Ek as <- <-. cbv zeta.
  destruct (in_viewport _ _ _) eqn:Hv.
  - right. apply bind_inv in E. destruct E as (q & w2 & _ & E).
    split; [reflexivity|].
    destruct (Qle_bool _ _); injection E as <- <-; [right|left]; reflexivity.
  - left. injection E as <- <-. split; reflexivity.
Qed.

End StarfieldInvariant.

Section StarfieldExamples.
Import Starfield.

(** C3, at a failing input. In [main], with no title shown (viewport
    [0, 0, 128, 64]) and the first star created as [7, 0, 15], the fourth
    frame holds the star's point [(127, 32)] and, the star being near, the
    point [(128, 32)], which is outside the viewport. With the viewport
    [0, 0, 64, 64] and a star created as [3, 0, 13], the fourth tick draws
    [(63, 32)] and [(64, 32)], the latter outside the viewport and inside
    the frame. *)
Theorem adjacent_pixel_outside_viewport :
  (exists (m : Main.t) (w : World) (rest : list Canvas),
     bind (Main.setup (lit "localhost") 1883 [] [] example_base small_font)
          (fun m => Main.run m (Main.frames 4))
          (world_of (1 # 32) edge_entropy) = Ok (m, w)
     /\ displayed w = [DrawPoint 128 32 255; DrawPoint 127 32 255] :: rest
     /\ (vp_x (Main.starfield m), vp_y (Main.starfield m),
         vp_w (Main.starfield m), vp_h (Main.starfield m)) = (0, 0, 128, 64)
     /\ in_viewport (Main.starfield m) 127 32 = true
     /\ in_viewport (Main.starfield m) 128 32 = false)
  /\
  (exists (self : t) (w : World),
     bind (__init__ 128 64 1 32)
          (fun self => ticks 4 (set_viewport self 0 0 64 64))
          (world_of 0 narrow_entropy)
       = Ok (self, [DrawPoint 64 32 255; DrawPoint 63 32 255], w)
     /\ in_viewport self 63 32 = true
     /\ in_viewport self 64 32 = false).
Proof.
  split.
  - eexists _, _, _. split; [vm_compute; reflexivity|].
    split; [vm_compute; reflexivity|].
    repeat split; vm_compute; reflexivity.
  - eexists _, _. split; [vm_compute; reflexivity|].
    split; vm_compute; reflexivity.
Qed.


End StarfieldExamples.

(** ** The scrolling title *)

Lemma Qle_bool_false (x y : Q) : (y < x)%Q -> Qle_bool x y = false.
Proof.
  intros Hlt. destruct (Qle_bool x y) eqn:E; [|reflexivity].
  apply Qle_bool_iff in E. exfalso. apply (Qlt_not_le _ _ Hlt E).
Qed.

Section TitleProperties.
Context `{Platform}.
Import TitleDisplay.

(** What [set_title] computes when the title differs from the stored one. *)
Lemma set_title_new (self : t) (title : str) (w : World) :
  str_eq_opt title (text self) = false ->
  exists self',
    set_title self title w = Ok (self', clock_read w) /\
    width self' = width self /\ font self' = font self /\
    text self' = Some title /\ layout_of self' title /\
    scroll_offset self' = 0%Q /\ waiting_to_scroll self' = true /\
    scroll_wait_start self' = clock w (clock_reads w).
Proof.
  intros E. unfold set_title. rewrite E.
  unfold bind, time_time.
  destruct (Z.leb_spec (get_text_width (font self) (lit "- " ++ title ++ lit " -"))
                       (width self)) as [H1|H1];
    [|destruct (Z.leb_spec (get_text_width (font self) title) (width self)) as [H2|H2]];
    (eexists; split; [reflexivity|]);
    cbn [width font text scroll_offset waiting_to_scroll scroll_wait_start];
    repeat (split; [reflexivity|]); (split; [|repeat split]);
    unfold layout_of; cbn [width font display_text is_scrolling text_width];
    repeat split; intros; try reflexivity; lia.
Qed.

Lemma str_eq_opt_true (title : str) (o : option str) :
  str_eq_opt title o = true <-> o = Some title.
Proof.
  destruct o as [s|]; simpl; [|split; discriminate].
  rewrite str_eqb_eq. split; congruence.
Qed.

Lemma set_title_consistent (self self' : t) (title : str) (w w' : World) :
  consistent self -> set_title self title w = Ok (self', w') -> consistent self'.
Proof.
  intros Hc E.
  destruct (str_eq_opt title (text self)) eqn:Eq.
  - unfold set_title in E. rewrite Eq in E. injection E as <- <-. exact Hc.
  - destruct (set_title_new self title w Eq)
      as (s2 & E2 & _ & _ & Ht & Hl & Ho & _).
    rewrite E in E2. injection E2 as <- _.
    split; [|intros _; exact Ho].
    intros title' Et. rewrite Ht in Et. injection Et as <-. exact Hl.
Qed.

Lemma layout_of_ext (self self' : t) (title : str) :
  width self' = width self -> font self' = font self ->
  display_text self' = display_text self ->
  is_scrolling self' = is_scrolling self ->
  text_width self' = text_width self ->
  layout_of self title -> layout_of self' title.
Proof.
  unfold layout_of. intros -> -> -> -> -> Hl. exact Hl.
Qed.

(** [update] changes the offset, the waiting flag and its start time only. *)
Lemma update_frame (self self' : t) (w w' : World) :
  update self w = Ok (self', w') ->
  width self' = width self /\ font self' = font self /\
  text self' = text self /\ display_text self' = display_text self /\
  is_scrolling self' = is_scrolling self /\ text_width self' = text_width self.
Proof.
  unfold update, bind, time_time, ret.
  destruct (negb (is_scrolling self)).
  { intros E. injection E as <- <-. repeat split. }
  destruct (waiting_to_scroll self);
    destruct (Qle_bool _ _); intros E; injection E as <- <-; repeat split.
Qed.

Lemma update_consistent (self self' : t) (w w' : World) :
  consistent self -> update self w = Ok (self', w') -> consistent self'.
Proof.
  intros [Hl Ho] E.
  destruct (update_frame self self' w w' E) as (Hw & Hf & Ht & Hd & Hs & Htw).
  split.
  - intros title Et. rewrite Ht in Et.
    apply (layout_of_ext self self' title Hw Hf Hd Hs Htw). apply Hl. exact Et.
  - revert E. unfold update, bind, time_time, ret.
    destruct (negb (is_scrolling self)).
    { intros E. injection E as <- <-. exact Ho. }
    destruct (waiting_to_scroll self) eqn:Ew.
    + destruct (Qle_bool _ _); intros E; injection E as <- <-.
      * cbn. discriminate.
      * rewrite Ew. exact Ho.
    + destruct (Qle_bool _ _); intros E; injection E as <- <-.
      * reflexivity.
      * cbn. discriminate.
Qed.

Lemma reachable_consistent (self : t) : reachable self -> consistent self.
Proof.
  induction 1 as [width font | self title w self' w' _ IH E | self w self' w' _ IH E].
  - split; cbn; discriminate.
  - eapply set_title_consistent; eassumption.
  - eapply update_consistent; eassumption.
Qed.

Lemma set_title_same_text_is_noop_aux (self : t) (title : str) (w : World) :
  text self = Some title -> set_title self title w = Ok (self, w).
Proof.
  intros E. unfold set_title.
  rewrite (proj2 (str_eq_opt_true title (text self)) E). reflexivity.
Qed.

(** C7. [set_title] with the stored text returns the object as it is:
    offset, waiting flag and its start time, mode, displayed text and width
    are all unchanged, and the clock is not even read. *)
Theorem set_title_same_text_is_noop :
  forall (self : t) (title : str) (w : World),
    text self = Some title ->
    set_title self title w = Ok (self, w).
Proof.
  intros self title w E. apply set_title_same_text_is_noop_aux. exact E.
Qed.

(** C6. On every title display the program can hold, [set_title] returns,
    with the title stored and the layout of the three-way choice: the dashed
    text, centered, when it fits; else the plain text, centered, when it
    fits; else the text followed by three spaces, scrolling, its width
    measured on the padded text. Width limit and font are unchanged. *)
Theorem set_title_layout :
  forall (self : t) (title : str) (w : World),
    reachable self ->
    exists self' w',
      set_title self title w = Ok (self', w') /\
      text self' = Some title /\
      layout_of self' title /\
      width self' = width self /\ font self' = font self.
Proof.
  intros self title w Hr.
  destruct (str_eq_opt title (text self)) eqn:Eq.
  - exists self, w.
    apply str_eq_opt_true in Eq.
    split; [apply set_title_same_text_is_noop_aux; exact Eq|].
    split; [exact Eq|]. split; [|split; reflexivity].
    apply (proj1 (reachable_consistent self Hr)). exact Eq.
  - destruct (set_title_new self title w Eq)
      as (s2 & E2 & Hw & Hf & Ht & Hl & _).
    exists s2, (clock_read w).
    split; [exact E2|]. split; [exact Ht|]. split; [exact Hl|].
    split; assumption.
Qed.

End TitleProperties.

Section TitleStateMachine.
Context `{Platform}.
Import TitleDisplay.


End TitleStateMachine.

(** ** The main loop *)

Lemma same_clock_refl (w : World) : same_clock w w.
Proof. split; reflexivity. Qed.

Lemma same_clock_trans (w1 w2 w3 : World) :
  same_clock w1 w2 -> same_clock w2 w3 -> same_clock w1 w3.
Proof. intros [A B] [C D]. split; congruence. Qed.

Section StarfieldClock.
Import Starfield.

Lemma star_tick_same_clock (self : t) (star star' : Star) (draw draw' : Canvas)
  (w w' : World) :
  star_tick self star draw w = Ok (star', draw', w') -> same_clock w w'.
Proof.
  unfold star_tick. intros E.
  apply bind_inv in E. destruct E as (s1 & w1 & Em & E).
  apply bind_inv in E. destruct E as (d1 & w2 & Ed & E).
  injection E as <- <- <-.
  assert (H1 : same_clock w w1).
  { unfold move_star in Em. destruct (Qle_bool _ _).
    - injection Em as <- <-. split; reflexivity.
    - injection Em as <- <-. apply same_clock_refl. }
  assert (H2 : same_clock w1 w2).
  { unfold draw_star in Ed.
    apply bind_inv in Ed. destruct Ed as (k & w3 & Ek & Ed).
    unfold float_div in Ek. destruct (Qeq_bool _ _); [discriminate|].
    injection Ek as <- <-.
    destruct (in_viewport _ _ _).
    - apply bind_inv in Ed. destruct Ed as (q & w4 & Eq & Ed).
      unfold float_div in Eq. destruct (Qeq_bool _ _); [discriminate|].
      injection Eq as <- <-.
      destruct (Qle_bool _ _); injection Ed as <- <-; apply same_clock_refl.
    - injection Ed as <- <-. apply same_clock_refl. }
  eapply same_clock_trans; eassumption.
Qed.

Lemma for_stars_same_clock (self : t) (l : list Star) :
  forall (draw : Canvas) (w : World) l' draw' w',
  for_stars self l draw w = Ok (l', draw', w') -> same_clock w w'.
Proof.
  induction l as [|star l IH]; intros draw w l' draw' w' E; simpl in E.
  - injection E as <- <- <-. apply same_clock_refl.
  - apply bind_inv in E. destruct E as ([s1 d1] & w1 & E1 & E).
    apply bind_inv in E. destruct E as ([l2 d2] & w2 & E2 & E).
    injection E as <- <- <-.
    eapply same_clock_trans.
    + eapply star_tick_same_clock; eassumption.
    + eapply IH; eassumption.
Qed.

Lemma update_and_draw_same_clock (self self' : t) (draw draw' : Canvas)
  (w w' : World) :
  update_and_draw self draw w = Ok (self', draw', w') -> same_clock w w'.
Proof.
  unfold update_and_draw. intros E.
  apply bind_inv in E. destruct E as ([l d] & w1 & E1 & E).
  injection E as <- <- <-.
  eapply for_stars_same_clock; eassumption.
Qed.

End StarfieldClock.

Section MainProperties.
Context `{Platform}.
Import Main.

Lemma draw_frame_run (m : t) (w : World) :
  Starfield.reachable (starfield m) ->
  exists m' w',
    draw_frame m w = Ok (m', w') /\
    mqtt_client m' = mqtt_client m /\ title_display m' = title_display m /\
    title m' = title m /\ Starfield.reachable (starfield m') /\ same_clock w w'.
Proof.
  intros Hr. unfold draw_frame.
  set (draw := if opt_bool (title m) then _ else _).
  destruct (update_and_draw_total (starfield m) draw w (reachable_depth_ok _ Hr))
    as (sf & d & w1 & E & _).
  rewrite (bind_ok _ _ _ _ _ E). cbv beta iota.
  eexists _, _. split; [reflexivity|]. cbn [mqtt_client title_display title starfield].
  repeat (split; [reflexivity|]). split.
  - eapply Starfield.reach_tick; eassumption.
  - apply update_and_draw_same_clock in E. destruct E as [E1 E2].
    split; cbn; assumption.
Qed.

(** An iteration is its [update_state] followed by steps that always
    complete and touch neither the store nor the title display; the clock is
    read once before [update_state] and once after the frame is drawn. *)
Lemma iteration_run (m m1 : t) (w w1 : World) :
  update_state m (clock_read w) = Ok (m1, w1) ->
  Starfield.reachable (starfield m1) ->
  exists m' w',
    iteration m w = Ok (m', w') /\
    mqtt_client m' = mqtt_client m1 /\ title_display m' = title_display m1 /\
    title m' = title m1 /\ Starfield.reachable (starfield m') /\
    clock w' = clock w1 /\ clock_reads w' = S (clock_reads w1).
Proof.
  intros Eu Hr.
  destruct (draw_frame_run m1 w1 Hr) as (m2 & w2 & Ed & Hc & Ht & Hti & Hr2 & Hk1 & Hk2).
  unfold iteration. unfold bind at 1. unfold time_time at 1.
  rewrite (bind_ok _ _ _ _ _ Eu), (bind_ok _ _ _ _ _ Ed).
  unfold bind, time_time.
  destruct (negb (Qle_bool _ _)); cbn;
    (eexists _, _; split; [reflexivity|]);
    split_all; try assumption; cbn; congruence.
Qed.

Lemma iteration_without_title (m : t) (w : World) :
  Starfield.reachable (starfield m) ->
  ShairportMQTTClient.get_display_title (mqtt_client m) = None ->
  exists m' w',
    iteration m w = Ok (m', w') /\
    mqtt_client m' = mqtt_client m /\ title_display m' = title_display m /\
    Starfield.reachable (starfield m') /\
    clock w' = clock w /\ clock_reads w' = S (S (clock_reads w)).
Proof.
  intros Hr Hn.
  assert (Eu : update_state m (clock_read w)
               = Ok (mk (mqtt_client m)
                        (Starfield.set_viewport (starfield m) 0 0 WIDTH HEIGHT)
                        (title_display m) None, clock_read w)).
  { unfold update_state. rewrite Hn. reflexivity. }
  destruct (iteration_run m _ w _ Eu (Starfield.reach_viewport _ 0 0 WIDTH HEIGHT Hr))
    as (m' & w' & E & Hc & Ht & _ & Hr' & Hk1 & Hk2).
  cbn [mqtt_client title_display clock clock_reads clock_read] in Hc, Ht, Hk1, Hk2.
  exists m', w'. split_all; assumption.
Qed.

Lemma frames_without_title (k : nat) :
  forall (m : t) (w : World),
  Starfield.reachable (starfield m) ->
  ShairportMQTTClient.get_display_title (mqtt_client m) = None ->
  exists m' w',
    run m (frames k) w = Ok (m', w') /\
    mqtt_client m' = mqtt_client m /\ title_display m' = title_display m /\
    Starfield.reachable (starfield m') /\
    clock w' = clock w /\ clock_reads w' = (clock_reads w + 2 * k)%nat.
Proof.
  induction k as [|k IH]; intros m w Hr Hn.
  - exists m, w. simpl. split_all; try reflexivity; try assumption. lia.
  - destruct (iteration_without_title m w Hr Hn)
      as (m1 & w1 & E1 & Hc1 & Ht1 & Hr1 & Hk1 & Hn1).
    rewrite <- Hc1 in Hn.
    destruct (IH m1 w1 Hr1 Hn) as (m2 & w2 & E2 & Hc2 & Ht2 & Hr2 & Hk2 & Hn2).
    exists m2, w2. split.
    + change (frames (S k)) with (Frame :: frames k).
      cbn [run on_event]. rewrite (bind_ok _ _ _ _ _ E1). exact E2.
    + split_all; try congruence. rewrite Hn2, Hn1. lia.
Qed.

Lemma iteration_with_same_title (m : t) (w : World) (shown : str)
  (td : TitleDisplay.t) (w1 : World) :
  Starfield.reachable (starfield m) ->
  ShairportMQTTClient.get_display_title (mqtt_client m) = Some shown ->
  shown <> [] ->
  TitleDisplay.text (title_display m) = Some shown ->
  TitleDisplay.update (title_display m) (clock_read w) = Ok (td, w1) ->
  exists m' w',
    iteration m w = Ok (m', w') /\
    mqtt_client m' = mqtt_client m /\ title_display m' = td /\
    Starfield.reachable (starfield m').
Proof.
  intros Hr Hs Hne Ht Eu.
  assert (E : update_state m (clock_read w)
              = Ok (mk (mqtt_client m)
                       (Starfield.set_viewport (starfield m) 0 STAR_VIEW_Y_OFFSET
                          WIDTH (HEIGHT - STAR_VIEW_Y_OFFSET))
                       td (Some shown), w1)).
  { unfold update_state. rewrite Hs.
    rewrite (proj2 (str_bool_true shown) Hne).
    rewrite (bind_ok _ _ _ _ _
               (set_title_same_text_is_noop_aux (title_display m) shown (clock_read w) Ht)).
    rewrite (bind_ok _ _ _ _ _ Eu). reflexivity. }
  destruct (iteration_run m _ w _ E
              (Starfield.reach_viewport _ 0 STAR_VIEW_Y_OFFSET WIDTH
                 (HEIGHT - STAR_VIEW_Y_OFFSET) Hr))
    as (m' & w' & Ei & Hc & Htd & _ & Hr' & _).
  cbn [mqtt_client title_display] in Hc, Htd.
  exists m', w'. split_all; assumption.
Qed.

Lemma update_total (td : TitleDisplay.t) (w : World) :
  exists td' w', TitleDisplay.update td w = Ok (td', w').
Proof.
  unfold TitleDisplay.update, bind, time_time, ret.
  destruct (negb _); [eexists _, _; reflexivity|].
  destruct (TitleDisplay.waiting_to_scroll td);
    destruct (Qle_bool _ _); eexists _, _; reflexivity.
Qed.

End MainProperties.

Section RoundTrip.
Context `{Platform}.
Import Main.

Lemma run_app (a b : list Event) :
  forall (m : t) (w : World), run m (a ++ b) w = bind (run m a) (fun m => run m b) w.
Proof.
  induction a as [|e a IH]; intros m w; simpl; [reflexivity|].
  unfold bind. destruct (on_event m e w) as [[m1 w1]|]; [|reflexivity].
  rewrite IH. reflexivity.
Qed.

Lemma on_message_active_end (s : ShairportMQTTClient.t) (p : list Byte.byte) :
  ShairportMQTTClient._on_message s
    (ShairportMQTTClient.mkMsg (ShairportMQTTClient.topic_base s ++ lit "/active_end") p)
  = ShairportMQTTClient.mk (ShairportMQTTClient.broker s) (ShairportMQTTClient.port s)
      (ShairportMQTTClient.topic_base s) None None false
      (ShairportMQTTClient._connected s).
Proof.
  unfold ShairportMQTTClient._on_message. cbn [ShairportMQTTClient.topic].
  rewrite !str_eqb_app_l. vm_compute. reflexivity.
Qed.

Lemma normalize_kept (s : str) :
  s <> [] -> s <> lit "--" -> ShairportMQTTClient.normalize s = Some s.
Proof.
  intros Hne Hs. unfold ShairportMQTTClient.normalize.
  rewrite (proj2 (str_bool_true s) Hne).
  destruct (str_eqb s (lit "--")) eqn:E; [|reflexivity].
  apply str_eqb_eq in E. contradiction.
Qed.

(** C1, as the code has it. Let the title display hold the text [shown].
    After a session-end message, any number of iterations and a title
    message whose payload is [shown] again, the next iteration completes and
    leaves the title display as [update] alone makes it from the display it
    was before the session ended: the iterations without a title did not
    touch it and the repeated title did not reset it. *)
Theorem roundtrip_same_title_resumes :
  forall (m : t) (shown : str) (p0 p : list Byte.byte) (k : nat) (w : World),
    Starfield.reachable (starfield m) ->
    TitleDisplay.text (title_display m) = Some shown ->
    strip (decode_utf8_ignore p) = shown ->
    shown <> [] -> shown <> lit "--" ->
    let base := ShairportMQTTClient.topic_base (mqtt_client m) in
    let events :=
      Message (ShairportMQTTClient.mkMsg (base ++ lit "/active_end") p0)
      :: frames k
      ++ [Message (ShairportMQTTClient.mkMsg (base ++ lit "/title") p); Frame] in
    exists m' w' w1 w2,
      run m events w = Ok (m', w') /\
      clock w1 = clock w /\ clock_reads w1 = (clock_reads w + 2 * k + 1)%nat /\
      TitleDisplay.update (title_display m) w1 = Ok (title_display m', w2).
Proof.
  intros m shown p0 p k w Hr Ht Hp Hne Hs base events. subst base events.
  cbn [run on_event]. unfold bind at 1. unfold ret at 1.
  rewrite on_message_active_end.
  set (m1 := mk _ (starfield m) (title_display m) (title m)).
  destruct (frames_without_title k m1 w Hr eq_refl)
    as (m2 & w2 & E2 & Hc2 & Ht2 & Hr2 & Hk2 & Hn2).
  rewrite run_app, (bind_ok _ _ _ _ _ E2).
  cbn [run on_event]. unfold bind at 1. unfold ret at 1.
  set (m3 := mk _ (starfield m2) (title_display m2) (title m2)).
  assert (Hd3 : ShairportMQTTClient.get_display_title (mqtt_client m3) = Some shown).
  { subst m3. cbn [mqtt_client]. rewrite Hc2. subst m1. cbn [mqtt_client].
    change (ShairportMQTTClient.topic_base (mqtt_client m))
      with (ShairportMQTTClient.topic_base
              (ShairportMQTTClient.mk
                 (ShairportMQTTClient.broker (mqtt_client m))
                 (ShairportMQTTClient.port (mqtt_client m))
                 (ShairportMQTTClient.topic_base (mqtt_client m)) None None false
                 (ShairportMQTTClient._connected (mqtt_client m)))) at 2.
    rewrite on_message_title, Hp, (normalize_kept shown Hne Hs).
    unfold ShairportMQTTClient.get_display_title.
    cbn [ShairportMQTTClient._title ShairportMQTTClient._artist opt_bool].
    rewrite (proj2 (str_bool_true shown) Hne). reflexivity. }
  assert (Ht3 : TitleDisplay.text (title_display m3) = Some shown).
  { subst m3. cbn [title_display]. rewrite Ht2. exact Ht. }
  destruct (update_total (title_display m3) (clock_read w2)) as (td & w3 & Eu).
  destruct (iteration_with_same_title m3 w2 shown td w3 Hr2 Hd3 Hne Ht3 Eu)
    as (m4 & w4 & E4 & _ & Htd & _).
  exists m4, w4, (clock_read w2), w3.
  split; [rewrite (bind_ok _ _ _ _ _ E4); reflexivity|].
  split; [exact Hk2|]. split; [cbn; rewrite Hn2; subst m1; cbn; lia|].
  rewrite Htd. subst m3. cbn [title_display] in Eu. rewrite Ht2 in Eu.
  exact Eu.
Qed.

End RoundTrip.

(** ** The properties at concrete inputs *)

(** A title message of blanks is stored as absent. *)
Lemma empty_payload_is_absent_witness :
  let s := ShairportMQTTClient.deliver example_store band_track in
  ShairportMQTTClient._title s = Some (lit "Track") /\
  strip (decode_utf8_ignore (bytes_of "   ")) = [] /\
  ShairportMQTTClient._title
    (ShairportMQTTClient._on_message s (msg_to "/title" "   ")) = None.
Proof.
  split; [reflexivity|]. split; [reflexivity|].
  apply (@empty_payload_is_absent example_platform
           (ShairportMQTTClient.deliver example_store band_track)
           (bytes_of "   ")).
  left. reflexivity.
Defined.

(** The third example of the specification: "Band - Track". *)
Lemma display_title_band_track :
  let s := ShairportMQTTClient.deliver example_store band_track in
  ShairportMQTTClient.reachable s /\
  ShairportMQTTClient._is_active s = true /\
  ShairportMQTTClient.get_display_title s = Some (lit "Band - Track").
Proof.
  assert (Hr : ShairportMQTTClient.reachable
                 (ShairportMQTTClient.deliver example_store band_track)).
  { apply deliver_reachable. apply ShairportMQTTClient.reach_init. }
  split; [exact Hr|]. split; [reflexivity|].
  apply (proj1 (proj2 (@display_title_none_iff_title_none example_platform _ Hr))
           (lit "Track") (lit "Band")); reflexivity.
Defined.

(** The first example of the specification: "Yesterday" in 60 pixels. *)
Lemma set_title_layout_witness :
  TitleDisplay.reachable narrow_display /\
  get_text_width small_font (lit "- Yesterday -") = 58 /\
  exists self' w',
    TitleDisplay.set_title narrow_display (lit "Yesterday")
      (world_of 0 edge_entropy) = Ok (self', w') /\
    TitleDisplay.display_text self' = lit "- Yesterday -" /\
    TitleDisplay.is_scrolling self' = false.
Proof.
  split; [constructor|]. split; [reflexivity|].
  destruct (@set_title_layout example_platform narrow_display (lit "Yesterday")
              (world_of 0 edge_entropy)
              (@TitleDisplay.reach_init example_platform 60 small_font))
    as (self' & w' & E & _ & Hl & Hw & Hf).
  exists self', w'. split; [exact E|].
  destruct Hl as [Hfits _]. rewrite Hw, Hf in Hfits.
  destruct Hfits as (Hd & Hs & _); [vm_compute; discriminate|].
  split; assumption.
Defined.

(** Setting the long title again on a display that scrolls it. *)
Lemma set_title_same_text_is_noop_witness :
  TitleDisplay.text scrolling_display = Some (lit long_title) /\
  TitleDisplay.set_title scrolling_display (lit long_title) (world_of 1 edge_entropy)
  = Ok (scrolling_display, world_of 1 edge_entropy).
Proof.
  split; [reflexivity|].
  apply (@set_title_same_text_is_noop example_platform scrolling_display (lit long_title)
           (world_of 1 edge_entropy)).
  reflexivity.
Defined.



(** C1, as the specification states it, fails. The clock advances by 1/32 s
    at each reading. The long title is played for 25 iterations: the display
    scrolls it and has reached offset 6. Then the session ends, an iteration
    runs without a title, the same title arrives and an iteration runs: the
    display is not waiting at offset 0 but scrolling at offset 8, its wait
    still dated from the first time the title was set. *)
Lemma roundtrip_same_title_not_reset :
  exists (m1 m2 : Main.t) (w1 w2 : World),
    bind started (fun m => Main.run m play_long_title)
         (world_of (1 # 32) edge_entropy) = Ok (m1, w1) /\
    bind started (fun m => Main.run m (play_long_title ++ stop_and_replay))
         (world_of (1 # 32) edge_entropy) = Ok (m2, w2) /\
    TitleDisplay.text (Main.title_display m1) = Some (lit long_title) /\
    TitleDisplay.is_scrolling (Main.title_display m1) = true /\
    TitleDisplay.waiting_to_scroll (Main.title_display m1) = false /\
    TitleDisplay.scroll_offset (Main.title_display m1) = 6%Q /\
    TitleDisplay.text (Main.title_display m2) = Some (lit long_title) /\
    TitleDisplay.waiting_to_scroll (Main.title_display m2) = false /\
    TitleDisplay.scroll_offset (Main.title_display m2) = 8%Q /\
    ~ (TitleDisplay.scroll_offset (Main.title_display m2) == 0)%Q /\
    TitleDisplay.scroll_wait_start (Main.title_display m2) = (1 # 32)%Q.
Proof.
  eexists _, _, _, _.
  split; [vm_compute; reflexivity|].
  split; [vm_compute; reflexivity|].
  split_all; try (vm_compute; reflexivity).
  vm_compute. discriminate.
Qed.

(** The round trip on a program that scrolls the long title: after the
    session end, one iteration and the same title, the display is the one
    [update] makes from the display before. *)
Lemma roundtrip_same_title_resumes_witness :
  Starfield.reachable two_stars /\
  exists m' w' w1 w2,
    Main.run replay_state stop_and_replay (world_of (1 # 30) edge_entropy)
      = Ok (m', w') /\
    clock w1 = clock (world_of (1 # 30) edge_entropy) /\
    clock_reads w1 = 3%nat /\
    TitleDisplay.update scrolling_display w1 = Ok (Main.title_display m', w2).
Proof.
  assert (Hr : Starfield.reachable two_stars).
  { eapply (Starfield.reach_init 128 64 2 32 (world_of 0 edge_entropy)).
    vm_compute. reflexivity. }
  split; [exact Hr|].
  apply (@roundtrip_same_title_resumes example_platform replay_state
           (lit long_title) (bytes_of "") (bytes_of long_title) 1
           (world_of (1 # 30) edge_entropy)).
  - exact Hr.
  - reflexivity.
  - reflexivity.
  - discriminate.
  - discriminate.
Defined.

(** ** The depth of a star in binary64 *)

Section Binary64Depth.
Import Floats.PrimFloat Floats.FloatOps Floats.FloatAxioms Binary64.

Lemma member_In (depth : float) (l : list float) :
  member depth l = true <-> In depth l.
Proof.
  unfold member. rewrite existsb_exists. split.
  - intros (d & Hin & E). apply Leibniz.eqb_spec in E. subst d. exact Hin.
  - intros Hin. exists depth. split; [exact Hin|]. apply Leibniz.eqb_spec. reflexivity.
Qed.

Lemma depths32_closed :
  forallb (fun d => member (next_depth 32 d) depths32 && depth_ok 32 d) depths32 = true.
Proof. vm_compute. reflexivity. Qed.

Lemma depths32_created :
  forallb (fun c => member (of_int (Z.of_nat c)) depths32) (seq 1 31) = true.
Proof. vm_compute. reflexivity. Qed.

(** With the rounding of binary64, the depth of a star of [main] (created at
    an integer of [1, 32), respawned at [STAR_MAX_DEPTH = 32]) is in
    [(0, 32]] after any number of ticks. *)
Lemma binary64_depth_invariant (c : Z) (n : nat) :
  1 <= c < STAR_MAX_DEPTH ->
  depth_ok STAR_MAX_DEPTH (Nat.iter n (next_depth STAR_MAX_DEPTH) (of_int c)) = true.
Proof.
  intros Hc. unfold STAR_MAX_DEPTH in *.
  assert (Hin : In (Nat.iter n (next_depth 32) (of_int c)) depths32).
  { induction n as [|n IH].
    - change (Nat.iter 0 (next_depth 32) (of_int c)) with (of_int c).
      apply (proj1 (member_In _ _)).
      pose proof (proj1 (forallb_forall _ _) depths32_created (Z.to_nat c)) as Hm.
      cbv beta in Hm. rewrite Z2Nat.id in Hm by lia. apply Hm.
      apply in_seq. lia.
    - change (Nat.iter (S n) (next_depth 32) (of_int c))
        with (next_depth 32 (Nat.iter n (next_depth 32) (of_int c))).
      apply (proj1 (member_In _ _)).
      pose proof (proj1 (forallb_forall _ _) depths32_closed _ IH) as Hm.
      cbv beta in Hm. apply andb_true_iff in Hm. exact (proj1 Hm). }
  pose proof (proj1 (forallb_forall _ _) depths32_closed _ Hin) as Hm.
  cbv beta in Hm. apply andb_true_iff in Hm. exact (proj2 Hm).
Qed.

(** The stars created as [7, 0, 15] and [3, 0, 13], in binary64: four ticks
    after their creation they are near and projected on column 127 from the
    origin 64, respectively on column 63 from the origin 32. *)
Lemma binary64_edge_stars :
  let d1 := Nat.iter 4 (next_depth 32) (of_int 15) in
  let d2 := Nat.iter 4 (next_depth 32) (of_int 13) in
  project (of_int 7) d1 64 = Some 127 /\ project (of_int 0) d1 32 = Some 32 /\
  near d1 32 = true /\
  project (of_int 3) d2 32 = Some 63 /\ project (of_int 0) d2 32 = Some 32 /\
  near d2 32 = true.
Proof. vm_compute. repeat split. Qed.

End Binary64Depth.

(** * Further properties *)

(** ** The starfield *)

Section StarfieldConstruction.
Import Starfield StarfieldFacts.

Lemma fresh_stars_ok (md : Z) :
  1 < md ->
  forall (n : nat) (w : World),
  exists l w',
    fresh_stars n md w = Ok (l, w') /\ List.length l = n /\
    Forall (created md) l /\
    entropy_reads w' = (entropy_reads w + 3 * n)%nat /\ same_clock w w'.
Proof.
  intros Hmd. induction n as [|n IH]; intros w.
  - exists [], w. simpl. split_all; [reflexivity | reflexivity | constructor | lia |].
    apply same_clock_refl.
  - cbn [fresh_stars]. unfold bind at 1. unfold randrange at 1. cbn [Z.ltb Z.compare].
    unfold bind at 1. unfold randrange at 1. cbn [Z.ltb Z.compare].
    unfold bind at 1. unfold randrange at 1.
    destruct (Z.ltb_spec 1 md) as [_|]; [|lia].
    destruct (IH (entropy_read (entropy_read (entropy_read w))))
      as (l & w' & E & Hlen & Hall & Hreads & Hc1 & Hc2).
    unfold bind at 1. rewrite E. unfold ret.
    eexists _, w'. split; [reflexivity|].
    split_all.
    + simpl. rewrite Hlen. reflexivity.
    + constructor; [|exact Hall].
      exists (-25 + entropy w (entropy_reads w) mod 50),
             (-25 + entropy w (S (entropy_reads w)) mod 50),
             (1 + entropy w (S (S (entropy_reads w))) mod (md - 1)).
      pose proof (Z.mod_pos_bound (entropy w (entropy_reads w)) 50).
      pose proof (Z.mod_pos_bound (entropy w (S (entropy_reads w))) 50).
      pose proof (Z.mod_pos_bound (entropy w (S (S (entropy_reads w)))) (md - 1)).
      split; [lia|]. split; [lia|]. split; [lia|]. reflexivity.
    + rewrite Hreads. cbn. lia.
    + split; [rewrite Hc1|rewrite Hc2]; reflexivity.
Qed.

Lemma fresh_stars_raises (md : Z) (n : nat) (w : World) :
  md <= 1 -> fresh_stars (S n) md w = Raise ValueError.
Proof.
  intros Hmd. cbn [fresh_stars].
  unfold bind at 1. unfold randrange at 1. cbn [Z.ltb Z.compare].
  unfold bind at 1. unfold randrange at 1. cbn [Z.ltb Z.compare].
  unfold bind at 1. unfold randrange at 1.
  destruct (Z.ltb_spec 1 md); [lia|reflexivity].
Qed.

(** X1. [Starfield(width, height, num_stars, max_depth)] raises [ValueError]
    exactly when it has a star to create and [max_depth <= 1] (the range
    [randrange(1, max_depth)] is empty). Otherwise it returns a starfield of
    [num_stars] stars (none when [num_stars <= 0]), each with integer
    coordinates of [-25, 25) and an integer depth of [1, max_depth), the
    viewport being the whole frame with its origin at the centre; it draws
    three random numbers per star. *)
Theorem starfield_init_cases :
  forall (width height num_stars max_depth : Z) (w : World),
    (0 < num_stars -> max_depth <= 1 ->
     __init__ width height num_stars max_depth w = Raise ValueError) /\
    (num_stars <= 0 \/ 1 < max_depth ->
     exists self w',
       __init__ width height num_stars max_depth w = Ok (self, w') /\
       List.length (stars self) = Z.to_nat num_stars /\
       Forall (created max_depth) (stars self) /\
       self = mk width height num_stars max_depth (stars self)
                 0 0 width height (width / 2) (height / 2) /\
       entropy_reads w' = (entropy_reads w + 3 * Z.to_nat num_stars)%nat).
Proof.
  intros width height n md w. split.
  - intros Hn Hmd. unfold __init__, init_stars.
    cbn [Starfield.num_stars Starfield.max_depth].
    destruct (Z.to_nat n) as [|k] eqn:En; [lia|].
    unfold bind. rewrite (fresh_stars_raises md k w Hmd). reflexivity.
  - intros Hcase. unfold __init__, init_stars.
    cbn [Starfield.num_stars Starfield.max_depth].
    assert (Hl : exists l w', fresh_stars (Z.to_nat n) md w = Ok (l, w')
                   /\ List.length l = Z.to_nat n /\ Forall (created md) l
                   /\ entropy_reads w' = (entropy_reads w + 3 * Z.to_nat n)%nat).
    { destruct (Z.ltb_spec 1 md) as [Hmd|Hmd].
      - destruct (fresh_stars_ok md Hmd (Z.to_nat n) w)
          as (l & w' & E & H1 & H2 & H3 & _).
        exists l, w'. split_all; assumption.
      - assert (Hz : Z.to_nat n = 0%nat) by lia. rewrite Hz.
        exists [], w. simpl. split_all; [reflexivity | reflexivity | constructor | lia]. }
    destruct Hl as (l & w' & E & Hlen & Hall & Hreads).
    unfold bind. rewrite E. unfold ret. cbn [stars].
    eexists _, w'. split; [reflexivity|]. cbn [stars].
    split_all; try assumption. reflexivity.
Qed.

End StarfieldConstruction.

Section StarfieldPopulation.
Import Starfield StarfieldFacts.

Lemma fresh_stars_inv (md : Z) (n : nat) :
  forall (w : World) (l : list Star) (w' : World),
  fresh_stars n md w = Ok (l, w') ->
  List.length l = n /\ Forall (created md) l.
Proof.
  induction n as [|n IH]; intros w l w' E; cbn [fresh_stars] in E.
  - injection E as <- <-. split; [reflexivity|constructor].
  - apply bind_inv in E. destruct E as (a & w1 & Ha & E).
    apply bind_inv in E. destruct E as (b & w2 & Hb & E).
    apply bind_inv in E. destruct E as (c & w3 & Hc & E).
    apply bind_inv in E. destruct E as (rest & w4 & Hrest & E).
    injection E as <- <-.
    apply randrange_range in Ha, Hb, Hc.
    destruct (IH _ _ _ Hrest) as [Hlen Hall].
    split; [simpl; rewrite Hlen; reflexivity|].
    constructor; [|exact Hall].
    exists a, b, c. split_all; try lia. reflexivity.
Qed.

Lemma created_coordinates_ok (md : Z) (star : Star) :
  created md star -> coordinates_ok star.
Proof.
  intros (a & b & c & Ha & Hb & _ & ->). exists a, b. split_all; try lia; reflexivity.
Qed.

Lemma move_star_inv (self : t) (star star' : Star) (w w' : World) :
  move_star self star w = Ok (star', w') ->
  (star' = mkStar (star_0 star) (star_1 star) (star_2 star - STAR_Z_STEP)%Q /\ w' = w)
  \/ (star' = respawned self w /\ w' = entropy_read (entropy_read w)).
Proof.
  intros E.
  destruct (Qlt_le_dec 0 (star_2 star - STAR_Z_STEP)) as [Hk|Hr].
  - rewrite (move_star_keep self star w Hk) in E. injection E as <- <-.
    left. split; reflexivity.
  - rewrite (move_star_respawn self star w Hr) in E. injection E as <- <-.
    right. split; reflexivity.
Qed.

Lemma respawned_coordinates_ok (self : t) (w : World) :
  coordinates_ok (respawned self w).
Proof.
  exists (-25 + entropy w (entropy_reads w) mod 50),
         (-25 + entropy w (S (entropy_reads w)) mod 50).
  pose proof (Z.mod_pos_bound (entropy w (entropy_reads w)) 50).
  pose proof (Z.mod_pos_bound (entropy w (S (entropy_reads w))) 50).
  split_all; try lia; reflexivity.
Qed.

Lemma star_tick_inv (self : t) (star star' : Star) (draw draw' : Canvas)
  (w w' : World) :
  star_tick self star draw w = Ok (star', draw', w') ->
  exists w1, move_star self star w = Ok (star', w1)
             /\ draw_star self star' draw w1 = Ok (draw', w').
Proof.
  unfold star_tick. intros E.
  apply bind_inv in E. destruct E as (s1 & w1 & Em & E).
  apply bind_inv in E. destruct E as (d1 & w2 & Ed & E).
  injection E as <- <- <-. exists w1. split; assumption.
Qed.

Lemma for_stars_population (self : t) (l : list Star) :
  forall (draw : Canvas) (w : World) l' draw' w',
  for_stars self l draw w = Ok (l', draw', w') ->
  List.length l' = List.length l /\
  (Forall coordinates_ok l -> Forall coordinates_ok l').
Proof.
  induction l as [|star l IH]; intros draw w l' draw' w' E; cbn [for_stars] in E.
  - injection E as <- <- <-. split; [reflexivity|intros _; constructor].
  - apply bind_inv in E. destruct E as ([s1 d1] & w1 & E1 & E).
    apply bind_inv in E. destruct E as ([l2 d2] & w2 & E2 & E).
    injection E as <- <- <-.
    destruct (IH _ _ _ _ _ E2) as [Hlen Hall].
    split; [simpl; rewrite Hlen; reflexivity|].
    intros Hc. inversion Hc as [|s0 l0 Hs Hl]; subst.
    constructor; [|apply Hall; exact Hl].
    apply star_tick_inv in E1. destruct E1 as (w3 & Em & _).
    apply move_star_inv in Em. destruct Em as [[-> _]|[-> _]].
    + destruct Hs as (a & b & Ha & Hb & E0 & E1').
      exists a, b. cbn [star_0 star_1]. split_all; try lia; assumption.
    + apply respawned_coordinates_ok.
Qed.

(** X2. In every starfield the program can hold, the number of stars is the
    [num_stars] it was built with (as many as [range(num_stars)] counts) and
    the coordinates of every star are integers of [-25, 25): ticks and
    changes of viewport neither add nor lose a star. *)
Theorem starfield_population :
  forall self : t,
    reachable self ->
    List.length (stars self) = Z.to_nat (num_stars self) /\
    Forall coordinates_ok (stars self).
Proof.
  induction 1 as [width height n md w self w' E
                 | self x y w h _ IH
                 | self draw w self' draw' w' _ IH E].
  - unfold __init__, init_stars in E.
    apply bind_inv in E. destruct E as (s1 & w1 & E1 & E).
    injection E as <- <-.
    apply bind_inv in E1. destruct E1 as (l & w2 & El & E1).
    injection E1 as <- <-. cbn [stars Starfield.num_stars Starfield.max_depth] in *.
    destruct (fresh_stars_inv _ _ _ _ _ El) as [Hlen Hall].
    split; [exact Hlen|].
    eapply Forall_impl; [|exact Hall]. intros s. apply created_coordinates_ok.
  - exact IH.
  - unfold update_and_draw in E.
    apply bind_inv in E. destruct E as ([l d] & w1 & El & E).
    injection E as <- <- <-. cbn [stars Starfield.num_stars].
    destruct (for_stars_population self (stars self) draw w l d w1 El) as [Hlen Hall].
    destruct IH as [IH1 IH2].
    split; [rewrite Hlen; exact IH1|apply Hall; exact IH2].
Qed.

End StarfieldPopulation.

Section StarfieldViewport.
Import Starfield StarfieldFacts.

(** X3. [set_viewport] leaves the stars alone and centres the origin: for a
    rectangle of positive width and height the origin is inside it, its
    distance to the left (top) edge being half the width (height) rounded
    down. *)
Theorem set_viewport_centres_origin :
  forall (self : t) (x y w h : Z),
    0 < w -> 0 < h ->
    let self' := set_viewport self x y w h in
    stars self' = stars self /\
    in_viewport self' (origin_x self') (origin_y self') = true /\
    0 <= w - 2 * (origin_x self' - x) <= 1 /\
    0 <= h - 2 * (origin_y self' - y) <= 1.
Proof.
  intros self x y w h Hw Hh self'. subst self'. unfold in_viewport.
  cbn [set_viewport stars origin_x origin_y vp_x vp_y vp_w vp_h].
  pose proof (Z.div_mod w 2 ltac:(lia)) as Ew.
  pose proof (Z.mod_pos_bound w 2 ltac:(lia)) as Bw.
  pose proof (Z.div_mod h 2 ltac:(lia)) as Eh.
  pose proof (Z.mod_pos_bound h 2 ltac:(lia)) as Bh.
  split; [reflexivity|]. split.
  - repeat (apply andb_true_iff; split);
      try (apply Z.leb_le; lia); apply Z.ltb_lt; lia.
  - split; lia.
Qed.

Lemma in_viewport_true (self : t) (x y : Z) :
  in_viewport self x y = true <->
  vp_x self <= x < vp_x self + vp_w self /\ vp_y self <= y < vp_y self + vp_h self.
Proof.
  unfold in_viewport. rewrite !andb_true_iff, !Z.leb_le, !Z.ltb_lt. tauto.
Qed.

(** What a tick adds to the canvas: points for the stars, above what was
    there. *)
Lemma for_stars_points (self : t) (l : list Star) :
  forall (draw : Canvas) (w : World) l' draw' w',
  for_stars self l draw w = Ok (l', draw', w') ->
  exists new, draw' = new ++ draw /\ Forall (star_point self) new.
Proof.
  induction l as [|star l IH]; intros draw w l' draw' w' E; cbn [for_stars] in E.
  - injection E as <- <- <-. exists []. split; [reflexivity|constructor].
  - apply bind_inv in E. destruct E as ([s1 d1] & w1 & E1 & E).
    apply bind_inv in E. destruct E as ([l2 d2] & w2 & E2 & E).
    injection E as <- <- <-.
    destruct (IH _ _ _ _ _ E2) as (new & -> & Hnew).
    apply star_tick_inv in E1. destruct E1 as (w3 & _ & Ed).
    apply draw_star_clip in Ed. cbv zeta in Ed.
    destruct Ed as [[_ ->]|[Hv Hd]].
    + exists new. split; [reflexivity|exact Hnew].
    + apply in_viewport_true in Hv.
      destruct Hd as [-> | ->].
      * eexists (new ++ [_]). rewrite <- app_assoc.
        split; [reflexivity|]. apply Forall_app. split; [exact Hnew|].
        constructor; [|constructor]. eexists _, _. split; [reflexivity|]. lia.
      * eexists (new ++ [_; _]). rewrite <- app_assoc.
        split; [reflexivity|]. apply Forall_app. split; [exact Hnew|].
        constructor; [|constructor; [|constructor]];
          (eexists _, _; split; [reflexivity|]; lia).
Qed.

Lemma in_viewport_empty (self : t) (x y : Z) :
  vp_w self <= 0 \/ vp_h self <= 0 -> in_viewport self x y = false.
Proof.
  intros Hempty. destruct (in_viewport self x y) eqn:E; [|reflexivity].
  apply in_viewport_true in E. lia.
Qed.

Lemma for_stars_empty_viewport (self : t) (l : list Star) :
  vp_w self <= 0 \/ vp_h self <= 0 ->
  forall (draw : Canvas) (w : World) l' draw' w',
  for_stars self l draw w = Ok (l', draw', w') -> draw' = draw.
Proof.
  intros Hempty.
  induction l as [|star l IH]; intros draw w l' draw' w' E; cbn [for_stars] in E.
  - injection E as <- <- <-. reflexivity.
  - apply bind_inv in E. destruct E as ([s1 d1] & w1 & E1 & E).
    apply bind_inv in E. destruct E as ([l2 d2] & w2 & E2 & E).
    injection E as <- <- <-.
    rewrite (IH _ _ _ _ _ E2).
    apply star_tick_inv in E1. destruct E1 as (w3 & _ & Ed).
    apply draw_star_clip in Ed. cbv zeta in Ed.
    destruct Ed as [[_ ->]|[Hv _]]; [reflexivity|].
    rewrite (in_viewport_empty self _ _ Hempty) in Hv. discriminate.
Qed.

(** X4. With a viewport of no width or no height, a tick of a starfield the
    program can hold draws nothing: it completes and the canvas comes back
    as it was given. *)
Theorem empty_viewport_draws_nothing :
  forall (self : t) (draw : Canvas) (w : World),
    reachable self ->
    vp_w self <= 0 \/ vp_h self <= 0 ->
    exists self' w', update_and_draw self draw w = Ok (self', draw, w').
Proof.
  intros self draw w Hr Hempty.
  destruct (update_and_draw_total self draw w (reachable_depth_ok self Hr))
    as (self' & draw' & w' & E & _).
  exists self', w'. rewrite E.
  unfold update_and_draw in E.
  apply bind_inv in E. destruct E as ([l d] & w1 & El & E).
  injection E as _ <- _.
  rewrite (for_stars_empty_viewport self (stars self) Hempty draw w l d w1 El).
  reflexivity.
Qed.

End StarfieldViewport.

Section StarfieldNear.
Import Starfield StarfieldFacts.



(** With the rounding of binary64 the threshold is the same: on every depth
    a star of [main] can have, the test of line 197 holds exactly when the
    depth is at most 16, half of [STAR_MAX_DEPTH]. *)
Lemma binary64_near_threshold :
  forallb (fun depth => Bool.eqb (Binary64.near depth 32)
                          (Floats.PrimFloat.leb depth (Binary64.of_int 16)))
    Binary64.depths32 = true.
Proof. vm_compute. reflexivity. Qed.

End StarfieldNear.

(** ** The metadata store *)

Section StoreAlgebra.
Context `{Platform}.
Import ShairportMQTTClient StoreFacts.

Lemma str_eqb_neq (a b : str) : a <> b -> str_eqb a b = false.
Proof.
  intros Hne. destruct (str_eqb a b) eqn:E; [|reflexivity].
  apply str_eqb_eq in E. contradiction.
Qed.

(** X10. Last write wins, topic by topic: of two messages on the same topic
    delivered in a row, only the second counts. In particular a message
    delivered twice (a retained message seen again) changes nothing the
    second time. *)
Theorem on_message_last_write_wins :
  forall (s : t) (m1 m2 : MQTTMessage),
    topic m1 = topic m2 ->
    _on_message (_on_message s m1) m2 = _on_message s m2.
Proof.
  intros s [t1 p1] [t2 p2] E. cbn [topic] in E. subst t2.
  unfold _on_message. cbn [topic payload].
  destruct (str_eqb t1 (topic_base s ++ lit "/title")) eqn:E1;
    cbn [topic_base]; [rewrite E1; reflexivity|].
  destruct (str_eqb t1 (topic_base s ++ lit "/artist")) eqn:E2;
    cbn [topic_base]; [rewrite E1, E2; reflexivity|].
  destruct (str_eqb t1 (topic_base s ++ lit "/active_start")) eqn:E3;
    cbn [topic_base]; [rewrite E1, E2, E3; reflexivity|].
  destruct (str_eqb t1 (topic_base s ++ lit "/active_end")) eqn:E4;
    cbn [topic_base]; [rewrite E1, E2, E3, E4; reflexivity|].
  destruct (str_eqb t1 (topic_base s ++ lit "/play_end")) eqn:E5;
    cbn [topic_base]; [rewrite E1, E2, E3, E4, E5; reflexivity|].
  rewrite E1, E2, E3, E4, E5. reflexivity.
Qed.

(** X11. A message on any other topic than the five [_on_message] has a
    branch for leaves the store as it is. That includes [play_start], which
    [_on_connect] subscribes to: the start of a track neither opens the
    session nor touches title and artist. *)
Theorem other_topics_are_ignored :
  forall s : t,
    (forall msg : MQTTMessage,
       ~ In (topic msg) (handled s) -> _on_message s msg = s) /\
    In (topic_base s ++ lit "/play_start") (topics s) /\
    (forall p : list Byte.byte,
       _on_message s (mkMsg (topic_base s ++ lit "/play_start") p) = s).
Proof.
  intros s.
  assert (Hgen : forall msg : MQTTMessage,
             ~ In (topic msg) (handled s) -> _on_message s msg = s).
  { intros [tp p] Hout. cbn [topic] in Hout.
    unfold _on_message. cbn [topic payload].
    rewrite !str_eqb_neq; [reflexivity|..];
      intros E; apply Hout; rewrite E; unfold handled; simpl; tauto. }
  split; [exact Hgen|]. split.
  - unfold topics. simpl. tauto.
  - intros p. apply Hgen. cbn [topic]. unfold handled. intros Hin. simpl in Hin.
    repeat (destruct Hin as [Hin|Hin]; [apply app_inv_head in Hin; discriminate|]).
    exact Hin.
Qed.

Lemma on_message_active_start (s : t) (p : list Byte.byte) :
  _on_message s (mkMsg (topic_base s ++ lit "/active_start") p)
  = mk (broker s) (port s) (topic_base s) (_title s) (_artist s) true (_connected s).
Proof.
  unfold _on_message. cbn [topic payload].
  rewrite !str_eqb_app_l. vm_compute. reflexivity.
Qed.

(** X12. Title, artist and session-start messages commute: delivered in
    either order they leave the same store, so the store does not depend on
    the order in which the broker delivers these independent facts. *)
Theorem independent_messages_commute :
  forall (s : t) (p q r : list Byte.byte),
    let title_msg := mkMsg (topic_base s ++ lit "/title") p in
    let artist_msg := mkMsg (topic_base s ++ lit "/artist") q in
    let start_msg := mkMsg (topic_base s ++ lit "/active_start") r in
    deliver s [title_msg; artist_msg] = deliver s [artist_msg; title_msg] /\
    deliver s [title_msg; start_msg] = deliver s [start_msg; title_msg] /\
    deliver s [artist_msg; start_msg] = deliver s [start_msg; artist_msg].
Proof.
  intros s p q r title_msg artist_msg start_msg.
  subst title_msg artist_msg start_msg. unfold deliver. cbn [fold_left].
  rewrite (on_message_title s), (on_message_artist s), (on_message_active_start s).
  set (st := mk _ _ _ (normalize (strip (decode_utf8_ignore p))) _ _ _).
  set (sa := mk _ _ _ _ (normalize (strip (decode_utf8_ignore q))) _ _).
  set (ss := mk _ _ _ _ _ true _).
  change (topic_base s) with (topic_base st) at 1.
  change (topic_base s) with (topic_base sa) at 1.
  change (topic_base s) with (topic_base st) at 1.
  change (topic_base s) with (topic_base ss) at 1.
  change (topic_base s) with (topic_base sa) at 1.
  change (topic_base s) with (topic_base ss) at 1.
  rewrite (on_message_artist st), (on_message_title sa), (on_message_active_start st),
    (on_message_title ss), (on_message_active_start sa), (on_message_artist ss).
  split_all; reflexivity.
Qed.

End StoreAlgebra.

(** ** The title display *)

Section TitleOffset.
Context `{Platform}.
Import TitleDisplay TitleDisplayFacts.

Lemma int_of_float_inject (k : Z) : int_of_float (inject_Z k) = k.
Proof. unfold int_of_float. simpl. apply Z.quot_1_r. Qed.

Lemma set_title_offset_ok (self self' : t) (title : str) (w w' : World) (k : Z) :
  offset_ok self k -> set_title self title w = Ok (self', w') ->
  exists k', offset_ok self' k'.
Proof.
  intros Hk E.
  destruct (str_eq_opt title (text self)) eqn:Eq.
  - unfold set_title in E. rewrite Eq in E. injection E as <- <-. exists k. exact Hk.
  - destruct (set_title_new self title w Eq) as (s2 & E2 & _ & _ & _ & _ & Ho & _).
    rewrite E in E2. injection E2 as <- _.
    exists 0. unfold offset_ok. rewrite Ho.
    split_all; intros; try reflexivity; lia.
Qed.

Lemma update_offset_ok (self self' : t) (w w' : World) (k : Z) :
  offset_ok self k -> update self w = Ok (self', w') ->
  exists k', offset_ok self' k'.
Proof.
  intros (Ho & Hk0 & Hmod & Hlt & Hc). unfold update, bind, time_time, ret.
  destruct (is_scrolling self) eqn:Es; cbn [negb].
  2: { intros E. injection E as <- <-. exists k. unfold offset_ok. rewrite Es.
       split_all; assumption. }
  destruct (waiting_to_scroll self) eqn:Ew.
  - destruct (Qle_bool _ _); intros E; injection E as <- <-; exists k;
      unfold offset_ok; cbn [scroll_offset text_width is_scrolling]; rewrite ?Es;
      split_all; try assumption; discriminate.
  - destruct (Qle_bool (float (text_width self)) _) eqn:Ecmp;
      intros E; injection E as <- <-.
    + exists 0. unfold offset_ok. cbn [scroll_offset text_width is_scrolling].
      split_all; intros; try reflexivity; try lia; discriminate.
    + exists (k * 1 + 2 * 1). unfold offset_ok.
      cbn [scroll_offset text_width is_scrolling]. rewrite Ho.
      assert (Hlt' : k * 1 + 2 * 1 < text_width self).
      { rewrite Ho in Ecmp.
        destruct (Z.lt_ge_cases (k * 1 + 2 * 1) (text_width self)) as [Hl|Hge];
          [exact Hl|].
        exfalso. apply Z.ge_le_iff in Hge. apply Z.ge_le in Hge.
        rewrite Zle_Qle in Hge. apply Qle_bool_iff in Hge.
        change (inject_Z (k * 1 + 2 * 1)) with (inject_Z k + float SCROLL_SPEED)%Q in Hge.
        change (float (text_width self)) with (inject_Z (text_width self)) in Ecmp.
        rewrite Hge in Ecmp. discriminate. }
      unfold SCROLL_SPEED in *.
      split_all; intros; try reflexivity; try lia; try discriminate.
      replace (k * 1 + 2 * 1) with (k + 1 * 2) by lia.
      rewrite Z.mod_add by lia. exact Hmod.
Qed.

Lemma reachable_offset_ok (self : t) :
  reachable self -> exists k : Z, offset_ok self k.
Proof.
  induction 1 as [width font | self title w self' w' _ IH E | self w self' w' _ IH E].
  - exists 0. unfold offset_ok. cbn. split_all; intros; try reflexivity; lia.
  - destruct IH as (k & Hk). eapply set_title_offset_ok; eassumption.
  - destruct IH as (k & Hk). eapply update_offset_ok; eassumption.
Qed.


End TitleOffset.

Section TitleDrawing.
Context `{Platform}.
Import TitleDisplay TitleDisplayFacts.

(** X7. Drawing a scrolling title the program can hold: the text is drawn
    twice, the second copy exactly [text_width] pixels to the right of the
    first; the first copy starts at minus the offset, which is a whole
    number of pixels, so never right of the left edge, and (for a text of
    positive width) the second copy starts right of the left edge. *)
Theorem draw_scrolling_tiles :
  forall (self : t) (draw0 : Canvas) (y : Z),
    reachable self ->
    is_scrolling self = true ->
    exists x : Z,
      draw self draw0 y
      = DrawText (x + text_width self) y (display_text self) 255
          :: DrawText x y (display_text self) 255 :: draw0 /\
      scroll_offset self = inject_Z (- x) /\
      x <= 0 /\
      (0 < text_width self -> 0 < x + text_width self).
Proof.
  intros self draw0 y Hr Hs.
  destruct (reachable_offset_ok self Hr) as (k & Ho & Hk0 & _ & Hlt & _).
  exists (- k). unfold draw. rewrite Hs. cbn [negb]. rewrite Ho.
  rewrite int_of_float_inject, Z.opp_involutive.
  split_all; try reflexivity; lia.
Qed.

(** X8. Drawing a centered title the program can hold: the text is drawn
    once, at a column [x] such that the text lies within the width of the
    display ([0 <= x] and [x + text_width <= width]) with margins that
    differ by at most one pixel, the extra pixel on the right. *)
Theorem draw_centered_fits :
  forall (self : t) (title : str) (draw0 : Canvas) (y : Z),
    reachable self ->
    text self = Some title ->
    is_scrolling self = false ->
    exists x : Z,
      draw self draw0 y = DrawText x y (display_text self) 255 :: draw0 /\
      0 <= x /\ x + text_width self <= width self /\
      0 <= (width self - (x + text_width self)) - x <= 1.
Proof.
  intros self title draw0 y Hr Ht Hs.
  assert (Hfit : text_width self <= width self).
  { destruct (proj1 (reachable_consistent self Hr) title Ht) as (H1 & H2 & H3).
    destruct (Z.le_gt_cases (get_text_width (font self) (lit "- " ++ title ++ lit " -"))
                (width self)) as [Hd|Hd].
    - destruct (H1 Hd) as (_ & _ & ->). exact Hd.
    - apply Z.gt_lt_iff in Hd. apply Z.gt_lt in Hd.
      destruct (Z.le_gt_cases (get_text_width (font self) title) (width self))
        as [Hb|Hb].
      + destruct (H2 Hd Hb) as (_ & _ & ->). exact Hb.
      + apply Z.gt_lt_iff in Hb. apply Z.gt_lt in Hb.
        destruct (H3 Hd Hb) as (_ & Hsc & _). congruence. }
  exists ((width self - text_width self) / 2).
  unfold draw. rewrite Hs. cbn [negb].
  pose proof (Z.div_mod (width self - text_width self) 2 ltac:(lia)).
  pose proof (Z.mod_pos_bound (width self - text_width self) 2 ltac:(lia)).
  split_all; try reflexivity; lia.
Qed.

End TitleDrawing.

Section TitleScrollPass.
Context `{Platform}.
Import TitleDisplay TitleDisplayFacts.

Lemma clock_read_n_0 (w : World) : clock_read_n 0 w = w.
Proof. destruct w. reflexivity. Qed.

Lemma clock_read_n_S (n : nat) (w : World) :
  clock_read_n n (clock_read w) = clock_read_n (S n) w.
Proof. unfold clock_read_n, clock_read. cbn. rewrite Nat.add_succ_r. reflexivity. Qed.

Lemma update_scroll_step (self : t) (w : World) :
  is_scrolling self = true -> waiting_to_scroll self = false ->
  (scroll_offset self + float SCROLL_SPEED < float (text_width self))%Q ->
  update self w
  = Ok (mk (width self) (font self) (text self) (display_text self) true
           (scroll_offset self + float SCROLL_SPEED)%Q (text_width self)
           (scroll_wait_start self) false, clock_read w).
Proof.
  intros Hs Hw Hd. unfold update, bind, time_time, ret.
  rewrite Hs, Hw. cbn [negb]. rewrite (Qle_bool_false _ _ Hd). reflexivity.
Qed.

Lemma update_wrap (self : t) (w : World) :
  is_scrolling self = true -> waiting_to_scroll self = false ->
  (float (text_width self) <= scroll_offset self + float SCROLL_SPEED)%Q ->
  update self w
  = Ok (mk (width self) (font self) (text self) (display_text self) true
           0 (text_width self) (clock w (S (clock_reads w))) true,
        clock_read (clock_read w)).
Proof.
  intros Hs Hw Hd. unfold update, bind, time_time, ret.
  rewrite Hs, Hw. cbn [negb]. apply Qle_bool_iff in Hd. rewrite Hd. reflexivity.
Qed.

(** While the offset stays below the text width, [n] updates of a scrolling
    title add [n * SCROLL_SPEED] to it and change nothing else. *)
Lemma updates_linear (n : nat) :
  forall (self : t) (w : World) (k : Z),
  is_scrolling self = true -> waiting_to_scroll self = false ->
  scroll_offset self = inject_Z k ->
  k + 2 * Z.of_nat n < text_width self ->
  exists self',
    updates n self w = Ok (self', clock_read_n n w) /\
    scroll_offset self' = inject_Z (k + 2 * Z.of_nat n) /\
    is_scrolling self' = true /\ waiting_to_scroll self' = false /\
    text_width self' = text_width self /\
    scroll_wait_start self' = scroll_wait_start self /\
    text self' = text self /\ display_text self' = display_text self /\
    width self' = width self /\ font self' = font self.
Proof.
  induction n as [|n IH]; intros self w k Hs Hw Ho Hlt.
  - exists self. cbn [updates]. unfold ret. rewrite clock_read_n_0.
    split; [reflexivity|]. split; [rewrite Ho; f_equal; lia|].
    split_all; try assumption; reflexivity.
  - cbn [updates].
    assert (Hstep : update self w
              = Ok (mk (width self) (font self) (text self) (display_text self) true
                       (scroll_offset self + float SCROLL_SPEED)%Q (text_width self)
                       (scroll_wait_start self) false, clock_read w)).
    { apply (update_scroll_step self w Hs Hw).
      rewrite Ho. unfold float, SCROLL_SPEED.
      change (inject_Z k + inject_Z 2)%Q with (inject_Z (k * 1 + 2 * 1)).
      rewrite <- Zlt_Qlt. lia. }
    rewrite (bind_ok _ _ _ _ _ Hstep).
    destruct (IH (mk (width self) (font self) (text self) (display_text self) true
                     (scroll_offset self + float SCROLL_SPEED)%Q (text_width self)
                     (scroll_wait_start self) false)
                 (clock_read w) (k * 1 + 2 * 1))
      as (s' & E & Ho' & Hrest); cbn [is_scrolling waiting_to_scroll scroll_offset text_width];
      try reflexivity.
    + rewrite Ho. reflexivity.
    + lia.
    + exists s'. rewrite E, clock_read_n_S. split; [reflexivity|].
      split; [rewrite Ho'; f_equal; lia|].
      cbn [text_width scroll_wait_start text display_text width font] in Hrest.
      exact Hrest.
Qed.

Lemma updates_snoc (n : nat) :
  forall (self : t) (w : World),
  updates (S n) self w = bind (updates n self) update w.
Proof.
  induction n as [|n IH]; intros self w.
  - cbn [updates]. unfold bind, ret.
    destruct (update self w) as [[s w1]|e]; reflexivity.
  - change (updates (S (S n)) self w)
      with (bind (update self) (updates (S n)) w).
    change (updates (S n) self) with (bind (update self) (updates n)).
    unfold bind.
    destruct (update self w) as [[s w1]|e]; [|reflexivity].
    rewrite IH. unfold bind. reflexivity.
Qed.

(** X9. A scroll pass. From offset 0, a scrolling title of positive width
    is moved by [SCROLL_SPEED] pixels at each update: after [j] updates the
    offset is [2 j], as long as that is less than the text width. The update
    after the last such offset ends the pass: the offset is 0 again and the
    display waits, from the time read at that moment. A pass thus takes
    [(text_width + 1) / 2] updates, rounded down. *)
Theorem scroll_pass :
  forall (self : t) (w : World),
    is_scrolling self = true ->
    waiting_to_scroll self = false ->
    scroll_offset self = 0%Q ->
    0 < text_width self ->
    let n := Z.to_nat ((text_width self - 1) / 2) in
    (forall j : nat, (j <= n)%nat ->
       exists s,
         updates j self w = Ok (s, clock_read_n j w) /\
         scroll_offset s = inject_Z (2 * Z.of_nat j) /\
         waiting_to_scroll s = false) /\
    (exists s,
       updates (S n) self w = Ok (s, clock_read_n (S (S n)) w) /\
       scroll_offset s = 0%Q /\ waiting_to_scroll s = true /\
       scroll_wait_start s = clock w (S n + clock_reads w)%nat) /\
    Z.of_nat (S n) = (text_width self + 1) / 2.
Proof.
  intros self w Hs Hw Ho Htw n.
  pose proof (Z.div_mod (text_width self - 1) 2 ltac:(lia)) as Ed.
  pose proof (Z.mod_pos_bound (text_width self - 1) 2 ltac:(lia)) as Bd.
  assert (Hn : Z.of_nat n = (text_width self - 1) / 2).
  { subst n. rewrite Z2Nat.id; [reflexivity|]. apply Z.div_pos; lia. }
  split; [|split].
  - intros j Hj.
    destruct (updates_linear j self w 0 Hs Hw Ho) as (s & E & Hos & _ & Hws & _);
      [lia|].
    exists s. split; [exact E|]. split; [rewrite Hos; f_equal; lia|exact Hws].
  - destruct (updates_linear n self w 0 Hs Hw Ho) as
      (s & E & Hos & Hss & Hws & Htws & _); [lia|].
    rewrite updates_snoc, (bind_ok _ _ _ _ _ E).
    assert (Hwrap : (float (text_width s) <= scroll_offset s + float SCROLL_SPEED)%Q).
    { rewrite Hos, Htws. unfold float, SCROLL_SPEED.
      change (inject_Z (0 + 2 * Z.of_nat n) + inject_Z 2)%Q
        with (inject_Z ((0 + 2 * Z.of_nat n) * 1 + 2 * 1)).
      rewrite <- Zle_Qle. lia. }
    rewrite (update_wrap s (clock_read_n n w) Hss Hws Hwrap).
    eexists. split; [reflexivity|].
    cbn [scroll_offset waiting_to_scroll scroll_wait_start clock_read_n clock clock_reads].
    split_all; reflexivity.
  - rewrite Nat2Z.inj_succ, Hn.
    pose proof (Z.div_mod (text_width self + 1) 2 ltac:(lia)).
    pose proof (Z.mod_pos_bound (text_width self + 1) 2 ltac:(lia)).
    lia.
Qed.

End TitleScrollPass.

(** ** The main loop *)

Lemma same_but_entropy_refl (w : World) : same_but_entropy w w.
Proof. unfold same_but_entropy. split_all; reflexivity. Qed.

Lemma same_but_entropy_trans (w1 w2 w3 : World) :
  same_but_entropy w1 w2 -> same_but_entropy w2 w3 -> same_but_entropy w1 w3.
Proof.
  unfold same_but_entropy. intros (A1 & A2 & A3 & A4 & A5) (B1 & B2 & B3 & B4 & B5).
  split_all; congruence.
Qed.

Lemma same_but_clock_refl (w : World) : same_but_clock w w.
Proof. unfold same_but_clock. split_all; reflexivity || lia. Qed.

Lemma same_but_clock_trans (w1 w2 w3 : World) :
  same_but_clock w1 w2 -> same_but_clock w2 w3 -> same_but_clock w1 w3.
Proof.
  unfold same_but_clock.
  intros (A1 & A2 & A3 & A4 & A5 & A6) (B1 & B2 & B3 & B4 & B5 & B6).
  split_all; congruence || lia.
Qed.

Lemma same_but_clock_read (w : World) : same_but_clock w (clock_read w).
Proof. unfold same_but_clock. cbn. split_all; reflexivity || lia. Qed.

Section StarfieldWorld.
Import Starfield StarfieldFacts.

Lemma draw_star_world (self : t) (star : Star) (draw draw' : Canvas) (w w' : World) :
  draw_star self star draw w = Ok (draw', w') -> w' = w.
Proof.
  unfold draw_star. intros E.
  apply bind_inv in E. destruct E as (k & w1 & Ek & E).
  unfold float_div in Ek. destruct (Qeq_bool _ _); [discriminate|].
  injection Ek as <- <-.
  destruct (in_viewport _ _ _).
  - apply bind_inv in E. destruct E as (q & w2 & Eq & E).
    unfold float_div in Eq. destruct (Qeq_bool _ _); [discriminate|].
    injection Eq as <- <-.
    destruct (Qle_bool _ _); injection E as _ <-; reflexivity.
  - injection E as _ <-. reflexivity.
Qed.

Lemma for_stars_world (self : t) (l : list Star) :
  forall (draw : Canvas) (w : World) l' draw' w',
  for_stars self l draw w = Ok (l', draw', w') -> same_but_entropy w w'.
Proof.
  induction l as [|star l IH]; intros draw w l' draw' w' E; cbn [for_stars] in E.
  - injection E as <- <- <-. apply same_but_entropy_refl.
  - apply bind_inv in E. destruct E as ([s1 d1] & w1 & E1 & E).
    apply bind_inv in E. destruct E as ([l2 d2] & w2 & E2 & E).
    injection E as <- <- <-.
    eapply same_but_entropy_trans; [|eapply IH; eassumption].
    apply star_tick_inv in E1. destruct E1 as (w3 & Em & Ed).
    apply draw_star_world in Ed. subst w1.
    apply move_star_inv in Em. destruct Em as [[_ ->]|[_ ->]].
    + apply same_but_entropy_refl.
    + unfold same_but_entropy. cbn. split_all; reflexivity.
Qed.

End StarfieldWorld.

Section MainLoop.
Context `{Platform}.
Import Main MainFacts.

Lemma display_title_nonempty (s : ShairportMQTTClient.t) (shown : str) :
  ShairportMQTTClient.get_display_title s = Some shown -> str_bool shown = true.
Proof.
  unfold ShairportMQTTClient.get_display_title.
  destruct (ShairportMQTTClient._title s) as [[|c title]|]; simpl; try discriminate.
  destruct (ShairportMQTTClient._artist s) as [[|d artist]|]; simpl; intros E;
    injection E as <-; reflexivity.
Qed.

Lemma set_title_run (self : TitleDisplay.t) (title : str) (w : World) :
  exists td w',
    TitleDisplay.set_title self title w = Ok (td, w') /\
    TitleDisplay.text td = Some title /\ same_but_clock w w'.
Proof.
  destruct (str_eq_opt title (TitleDisplay.text self)) eqn:Eq.
  - exists self, w. apply str_eq_opt_true in Eq.
    split; [apply set_title_same_text_is_noop_aux; exact Eq|].
    split; [exact Eq|apply same_but_clock_refl].
  - destruct (set_title_new self title w Eq) as (td & E & _ & _ & Ht & _).
    exists td, (clock_read w). split; [exact E|]. split; [exact Ht|].
    apply same_but_clock_read.
Qed.

Lemma update_run (self : TitleDisplay.t) (w : World) :
  exists td w',
    TitleDisplay.update self w = Ok (td, w') /\
    TitleDisplay.text td = TitleDisplay.text self /\ same_but_clock w w'.
Proof.
  destruct (update_total self w) as (td & w' & E).
  exists td, w'. split; [exact E|].
  split; [exact (proj1 (proj2 (proj2 (update_frame self td w w' E))))|].
  revert E. unfold TitleDisplay.update, bind, time_time, ret.
  destruct (negb _).
  { intros E. injection E as _ <-. apply same_but_clock_refl. }
  destruct (TitleDisplay.waiting_to_scroll self);
    destruct (Qle_bool _ _); intros E; injection E as _ <-;
    try apply same_but_clock_read.
  eapply same_but_clock_trans; apply same_but_clock_read.
Qed.

(** Steps 1 and 2 of an iteration always complete. *)
Lemma update_state_spec (m : t) (w : World) :
  exists m1 w1,
    update_state m w = Ok (m1, w1) /\
    mqtt_client m1 = mqtt_client m /\
    title m1 = ShairportMQTTClient.get_display_title (mqtt_client m) /\
    same_but_clock w w1 /\
    starfield m1
    = Starfield.set_viewport (starfield m) 0 (first_row (title m1)) WIDTH
        (HEIGHT - first_row (title m1)) /\
    (forall s, title m1 = Some s ->
       str_bool s = true /\ TitleDisplay.text (title_display m1) = Some s) /\
    (title m1 = None -> title_display m1 = title_display m) /\
    (TitleDisplay.reachable (title_display m) ->
     TitleDisplay.reachable (title_display m1)).
Proof.
  unfold update_state.
  destruct (ShairportMQTTClient.get_display_title (mqtt_client m)) as [s|] eqn:Ed.
  - pose proof (display_title_nonempty _ _ Ed) as Hs. rewrite Hs.
    destruct (set_title_run (title_display m) s w) as (td1 & w1 & E1 & Ht1 & Hw1).
    destruct (update_run td1 w1) as (td2 & w2 & E2 & Ht2 & Hw2).
    rewrite (bind_ok _ _ _ _ _ E1), (bind_ok _ _ _ _ _ E2).
    eexists _, _. split; [reflexivity|].
    cbn [mqtt_client title starfield title_display]. unfold first_row. cbn [opt_bool].
    rewrite Hs.
    split; [reflexivity|]. split; [reflexivity|].
    split; [eapply same_but_clock_trans; eassumption|].
    split; [reflexivity|]. split; [|split].
    + intros s' Es. injection Es as <-. split; [exact Hs|].
      rewrite Ht2. exact Ht1.
    + discriminate.
    + intros Hr. eapply TitleDisplay.reach_update; [|exact E2].
      eapply TitleDisplay.reach_set_title; [exact Hr|exact E1].
  - eexists _, _. split; [reflexivity|].
    cbn [mqtt_client title starfield title_display]. unfold first_row. cbn [opt_bool].
    split; [reflexivity|]. split; [reflexivity|].
    split; [apply same_but_clock_refl|].
    split; [reflexivity|]. split; [|split].
    + discriminate.
    + reflexivity.
    + intros Hr. exact Hr.
Qed.

(** Steps 3 and 4 of an iteration complete on a starfield the program can
    hold. *)
Lemma iteration_tail (m m1 : t) (w w1 : World) :
  update_state m (clock_read w) = Ok (m1, w1) ->
  Starfield.reachable (starfield m1) ->
  exists sf points w2,
    Starfield.update_and_draw (starfield m1) (band_texts m1) w1
      = Ok (sf, points ++ band_texts m1, w2) /\
    Forall (StarfieldFacts.star_point (starfield m1)) points /\
    same_but_entropy w1 w2 /\
    iteration m w
    = Ok (mk (mqtt_client m1) sf (title_display m1) (title m1),
          world_after w w1 w2 (points ++ band_texts m1)).
Proof.
  intros Eu Hr.
  destruct (update_and_draw_total (starfield m1) (band_texts m1) w1
              (reachable_depth_ok _ Hr)) as (sf & d & w2 & E & _).
  pose proof E as E'. unfold Starfield.update_and_draw in E'.
  apply bind_inv in E'. destruct E' as ([l d'] & w3 & El & E').
  injection E' as _ <- <-.
  destruct (for_stars_points _ _ _ _ _ _ _ El) as (points & -> & Hp).
  apply for_stars_world in El.
  exists sf, points, w3. split; [exact E|]. split; [exact Hp|]. split; [exact El|].
  unfold iteration. unfold bind at 1. unfold time_time at 1.
  rewrite (bind_ok _ _ _ _ _ Eu).
  unfold draw_frame. fold (band_texts m1).
  unfold bind at 1. unfold bind at 1. rewrite E.
  unfold bind at 1. unfold display at 1. unfold ret at 1.
  unfold bind at 1. unfold time_time at 1.
  cbn [clock clock_reads clock_read slept displayed entropy entropy_reads].
  unfold world_after, sleep_time.
  unfold bind, time_sleep, ret.
  destruct (negb (Qle_bool _ _)); reflexivity.
Qed.

End MainLoop.

Section MainSafety.
Context `{Platform}.
Import Main MainFacts.

Lemma setup_run (broker : str) (port : Z) (user pass base : str) (font : Font)
  (w : World) :
  exists sf w',
    Starfield.__init__ WIDTH HEIGHT STAR_NUM STAR_MAX_DEPTH w = Ok (sf, w') /\
    setup broker port user pass base font w
    = Ok (mk (ShairportMQTTClient.__init__ broker port user pass base) sf
             (TitleDisplay.__init__ WIDTH font) None, w').
Proof.
  assert (Hmd : 1 < STAR_MAX_DEPTH) by (unfold STAR_MAX_DEPTH; lia).
  destruct (fresh_stars_ok STAR_MAX_DEPTH Hmd (Z.to_nat STAR_NUM) w)
    as (l & w' & E & _).
  assert (Ei : Starfield.__init__ WIDTH HEIGHT STAR_NUM STAR_MAX_DEPTH w
               = Ok (Starfield.mk WIDTH HEIGHT STAR_NUM STAR_MAX_DEPTH l
                       0 0 WIDTH HEIGHT (WIDTH / 2) (HEIGHT / 2), w')).
  { unfold Starfield.__init__, Starfield.init_stars.
    cbn [Starfield.num_stars Starfield.max_depth].
    unfold bind. rewrite E. reflexivity. }
  eexists _, w'. split; [exact Ei|].
  unfold setup. rewrite (bind_ok _ _ _ _ _ Ei). reflexivity.
Qed.

Lemma iteration_run_full (m : t) (w : World) :
  Starfield.reachable (starfield m) ->
  exists m1 w1 sf points w2,
    update_state m (clock_read w) = Ok (m1, w1) /\
    Starfield.update_and_draw (starfield m1) (band_texts m1) w1
      = Ok (sf, points ++ band_texts m1, w2) /\
    Forall (StarfieldFacts.star_point (starfield m1)) points /\
    same_but_entropy w1 w2 /\
    Starfield.reachable (starfield m1) /\
    iteration m w
    = Ok (mk (mqtt_client m1) sf (title_display m1) (title m1),
          world_after w w1 w2 (points ++ band_texts m1)).
Proof.
  intros Hr.
  destruct (update_state_spec m (clock_read w))
    as (m1 & w1 & Eu & _ & _ & _ & Hsf & _).
  assert (Hr1 : Starfield.reachable (starfield m1)).
  { rewrite Hsf. apply Starfield.reach_viewport. exact Hr. }
  destruct (iteration_tail m m1 w w1 Eu Hr1) as (sf & points & w2 & E & Hp & Hw & Ei).
  exists m1, w1, sf, points, w2. split_all; assumption.
Qed.

Lemma reachable_parts (m : t) :
  reachable m ->
  Starfield.reachable (starfield m) /\
  TitleDisplay.reachable (title_display m) /\
  ShairportMQTTClient.reachable (mqtt_client m).
Proof.
  induction 1 as [broker port user pass base font w m w' E
                 | m e w m' w' _ IH E].
  - destruct (setup_run broker port user pass base font w) as (sf & w2 & Ei & Es).
    rewrite Es in E. injection E as <- <-. cbn [starfield title_display mqtt_client].
    split; [eapply Starfield.reach_init; exact Ei|].
    split; [apply TitleDisplay.reach_init|apply ShairportMQTTClient.reach_init].
  - destruct IH as (Hsf & Htd & Hst). destruct e as [msg|]; cbn [on_event] in E.
    + injection E as <- <-. cbn [starfield title_display mqtt_client].
      split; [exact Hsf|]. split; [exact Htd|].
      apply ShairportMQTTClient.reach_message. exact Hst.
    + destruct (iteration_run_full m w Hsf)
        as (m1 & w1 & sf & points & w2 & Eu & Ed & _ & _ & Hr1 & Ei).
      rewrite Ei in E. injection E as <- <-. cbn [starfield title_display mqtt_client].
      destruct (update_state_spec m (clock_read w))
        as (m1' & w1' & Eu' & Hc & _ & _ & _ & _ & _ & Hreach).
      rewrite Eu in Eu'. injection Eu' as <- <-.
      split; [eapply Starfield.reach_tick; eassumption|].
      split; [apply Hreach; exact Htd|]. rewrite Hc. exact Hst.
Qed.

(** X13. The program never raises: [setup] completes, whatever the settings
    and the random source, and from every state the program reaches, a
    message is taken and an iteration of the loop completes, whatever the
    clock and the random source (no division by a zero depth, no empty
    range). *)
Theorem main_never_raises :
  (forall (broker : str) (port : Z) (user pass base : str) (font : Font) (w : World),
     exists m w', setup broker port user pass base font w = Ok (m, w')) /\
  (forall m : t, reachable m ->
     forall (e : Event) (w : World), exists m' w', on_event m e w = Ok (m', w')).
Proof.
  split.
  - intros broker port user pass base font w.
    destruct (setup_run broker port user pass base font w) as (sf & w' & _ & E).
    eexists _, _. exact E.
  - intros m Hr e w. destruct e as [msg|]; cbn [on_event].
    + eexists _, _. reflexivity.
    + destruct (iteration_run_full m w (proj1 (reachable_parts m Hr)))
        as (m1 & w1 & sf & points & w2 & _ & _ & _ & _ & _ & Ei).
      eexists _, _. exact Ei.
Qed.

End MainSafety.

Section MainFrames.
Context `{Platform}.
Import Main MainFacts.






End MainFrames.

(** ** The cover translator *)

Section Lists.

Lemma list_set_length {A : Type} (l : list A) (n : nat) (a : A) :
  List.length (list_set l n a) = List.length l.
Proof.
  revert n. induction l as [|x l IH]; intros [|n]; simpl; try reflexivity.
  rewrite IH. reflexivity.
Qed.

Lemma nth_list_set {A : Type} (l : list A) (n m : nat) (a d : A) :
  (n < List.length l)%nat ->
  nth m (list_set l n a) d = if Nat.eqb m n then a else nth m l d.
Proof.
  revert n m. induction l as [|x l IH]; intros [|n] [|m] Hn; simpl in *; try lia;
    try reflexivity.
  apply IH. lia.
Qed.

Lemma in_range (n i : Z) : In i (range n) <-> 0 <= i < n.
Proof.
  unfold range. rewrite in_map_iff. split.
  - intros (k & <- & Hk). apply in_seq in Hk. lia.
  - intros Hi. exists (Z.to_nat i). split; [lia|]. apply in_seq. lia.
Qed.

End Lists.

Section Packing.
Import CoverTranslator.

Lemma byte_value_range (b : Byte.byte) : 0 <= Z.of_N (Byte.to_N b) < 256.
Proof. pose proof (Byte.to_N_bounded b). lia. Qed.

Lemma lor_bit_range (a k : Z) :
  0 <= a < 256 -> 0 <= k < 8 -> 0 <= Z.lor a (Z.shiftl 1 k) < 256.
Proof.
  intros Ha Hk. rewrite Z.shiftl_1_l.
  assert (Hp : 0 < 2 ^ k) by (apply Z.pow_pos_nonneg; lia).
  assert (Hnn : 0 <= Z.lor a (2 ^ k)) by (apply Z.lor_nonneg; lia).
  split; [exact Hnn|].
  assert (Hpos : 0 < Z.lor a (2 ^ k)).
  { destruct (Z.eq_dec (Z.lor a (2 ^ k)) 0) as [E|E]; [|lia].
    apply Z.lor_eq_0_iff in E. lia. }
  change 256 with (2 ^ 8).
  apply Z.log2_lt_pow2; [exact Hpos|].
  rewrite Z.log2_lor by lia. rewrite Z.log2_pow2 by lia.
  apply Z.max_lub_lt; [|lia].
  destruct (Z.eq_dec a 0) as [->|Hne]; [simpl; lia|].
  apply Z.log2_lt_pow2; lia.
Qed.

(** Setting bit [idx] of a bitmap. *)
Lemma ior_item_bit (out : bytearray) (idx : Z) :
  0 <= idx < 8 * Z.of_nat (List.length out) ->
  exists out',
    ior_item out (Z.shiftr idx 3) (Z.shiftl 1 (Z.land idx 7)) = Some out' /\
    List.length out' = List.length out /\
    forall i, 0 <= i -> bit out' i = bit out i || (i =? idx).
Proof.
  intros Hidx.
  assert (Hs : Z.shiftr idx 3 = idx / 8) by (rewrite Z.shiftr_div_pow2 by lia; reflexivity).
  assert (Hl : Z.land idx 7 = idx mod 8).
  { change 7 with (Z.ones 3). rewrite Z.land_ones by lia. reflexivity. }
  pose proof (Z.div_mod idx 8 ltac:(lia)) as Ed.
  pose proof (Z.mod_pos_bound idx 8 ltac:(lia)) as Bd.
  rewrite Hs, Hl. unfold ior_item.
  destruct (Z.ltb_spec (idx / 8) 0) as [Hneg|_]; [lia|].
  assert (Hj : 0 <= idx / 8 < Z.of_nat (List.length out)) by lia.
  destruct (Z.leb_spec 0 (idx / 8)) as [_|]; [|lia].
  destruct (Z.ltb_spec (idx / 8) (Z.of_nat (List.length out))) as [_|]; [|lia].
  cbn [andb].
  set (old := Z.of_N (Byte.to_N (nth (Z.to_nat (idx / 8)) out Byte.x00))).
  pose proof (byte_value_range (nth (Z.to_nat (idx / 8)) out Byte.x00)) as Hold.
  fold old in Hold.
  pose proof (lor_bit_range old (idx mod 8) Hold Bd) as Hnew.
  destruct (Z.ltb_spec (Z.lor old (Z.shiftl 1 (idx mod 8))) 0) as [|_]; [lia|].
  destruct (Byte.of_N (Z.to_N (Z.lor old (Z.shiftl 1 (idx mod 8))))) as [b'|] eqn:Eb.
  2: { apply Byte.of_N_None_iff in Eb. lia. }
  apply Byte.to_of_N in Eb.
  exists (list_set out (Z.to_nat (idx / 8)) b').
  split; [reflexivity|]. split; [apply list_set_length|].
  intros i Hi. unfold bit.
  rewrite nth_list_set by lia.
  pose proof (Z.div_mod i 8 ltac:(lia)) as Edi.
  pose proof (Z.mod_pos_bound i 8 ltac:(lia)) as Bdi.
  assert (Hq : 0 <= i / 8) by (apply Z.div_pos; lia).
  destruct (Nat.eqb_spec (Z.to_nat (i / 8)) (Z.to_nat (idx / 8))) as [Eq|Ne].
  - assert (Eq' : i / 8 = idx / 8) by lia.
    rewrite Eb, Z2N.id by lia. rewrite Z.lor_spec, Z.shiftl_1_l.
    rewrite Z.pow2_bits_eqb by lia. rewrite Eq'. fold old.
    f_equal.
    destruct (Z.eqb_spec (idx mod 8) (i mod 8)) as [Em|Em];
      destruct (Z.eqb_spec i idx) as [Ei|Ei]; try reflexivity; exfalso; lia.
  - destruct (Z.eqb_spec i idx) as [->|_]; [contradiction|].
    rewrite orb_false_r. reflexivity.
Qed.

Lemma pack_pixel_packed (pixels : Z -> Z -> Z) (width y x : Z) (len : nat)
  (covered : Z -> bool) (out : bytearray) :
  packed len covered out ->
  0 <= y * width + x < 8 * Z.of_nat len ->
  exists out',
    pack_pixel pixels width y x out = Some out' /\
    packed len (fun i => covered i || ((i =? y * width + x) && negb (pixels x y =? 0)))
           out'.
Proof.
  intros [Hlen Hbits] Hidx. unfold pack_pixel.
  destruct (negb (pixels x y =? 0)).
  - rewrite <- Hlen in Hidx.
    destruct (ior_item_bit out (y * width + x) Hidx) as (out' & E & Hlen' & Hb).
    exists out'. split; [exact E|]. split; [congruence|].
    intros i Hi. rewrite Hb, Hbits by lia. rewrite andb_true_r. reflexivity.
  - exists out. split; [reflexivity|]. split; [exact Hlen|].
    intros i Hi. rewrite Hbits by lia. rewrite andb_false_r, orb_false_r. reflexivity.
Qed.

Lemma row_packed (pixels : Z -> Z -> Z) (width y : Z) (len : nat) (xs : list Z) :
  (forall x, In x xs -> 0 <= y * width + x < 8 * Z.of_nat len) ->
  forall (covered : Z -> bool) (out : bytearray),
  packed len covered out ->
  exists out',
    for_each xs (pack_pixel pixels width y) out = Some out' /\
    packed len
      (fun i => covered i
                || existsb (fun x => (i =? y * width + x) && negb (pixels x y =? 0)) xs)
      out'.
Proof.
  induction xs as [|x xs IH]; intros Hin covered out Hp.
  - exists out. split; [reflexivity|]. destruct Hp as [Hlen Hb].
    split; [exact Hlen|]. intros i Hi. rewrite Hb by lia. simpl.
    rewrite orb_false_r. reflexivity.
  - destruct (pack_pixel_packed pixels width y x len covered out Hp
                (Hin x (or_introl eq_refl))) as (out1 & E1 & Hp1).
    destruct (IH (fun x' Hx' => Hin x' (or_intror Hx')) _ out1 Hp1)
      as (out2 & E2 & [Hlen2 Hb2]).
    exists out2. cbn [for_each]. rewrite E1. split; [exact E2|].
    split; [exact Hlen2|]. intros i Hi. rewrite Hb2 by lia. simpl.
    rewrite orb_assoc. reflexivity.
Qed.

Lemma rows_packed (pixels : Z -> Z -> Z) (width : Z) (len : nat) (xs ys : list Z) :
  (forall y x, In y ys -> In x xs -> 0 <= y * width + x < 8 * Z.of_nat len) ->
  forall (covered : Z -> bool) (out : bytearray),
  packed len covered out ->
  exists out',
    for_each ys (fun y out => for_each xs (pack_pixel pixels width y) out) out
      = Some out' /\
    packed len
      (fun i => covered i
                || existsb (fun y =>
                     existsb (fun x => (i =? y * width + x) && negb (pixels x y =? 0))
                       xs) ys)
      out'.
Proof.
  induction ys as [|y ys IH]; intros Hin covered out Hp.
  - exists out. split; [reflexivity|]. destruct Hp as [Hlen Hb].
    split; [exact Hlen|]. intros i Hi. rewrite Hb by lia. simpl.
    rewrite orb_false_r. reflexivity.
  - destruct (row_packed pixels width y len xs
                (fun x Hx => Hin y x (or_introl eq_refl) Hx) covered out Hp)
      as (out1 & E1 & Hp1).
    destruct (IH (fun y' x' Hy' Hx' => Hin y' x' (or_intror Hy') Hx') _ out1 Hp1)
      as (out2 & E2 & [Hlen2 Hb2]).
    exists out2. cbn [for_each]. rewrite E1. split; [exact E2|].
    split; [exact Hlen2|]. intros i Hi. rewrite Hb2 by lia. simpl.
    rewrite orb_assoc. reflexivity.
Qed.

Lemma bit_zeros (n : nat) (i : Z) : bit (repeat Byte.x00 n) i = false.
Proof.
  unfold bit.
  assert (E : nth (Z.to_nat (i / 8)) (repeat Byte.x00 n) Byte.x00 = Byte.x00).
  { generalize (Z.to_nat (i / 8)) as k. induction n as [|n IH]; intros [|k]; simpl;
      try reflexivity. apply IH. }
  rewrite E. apply Z.testbit_0_l.
Qed.

End Packing.

Section PackingTheorems.
Import CoverTranslator.

Lemma count_covers (n : Z) : n <= 8 * ((n + 7) / 8).
Proof.
  pose proof (Z.div_mod (n + 7) 8 ltac:(lia)).
  pose proof (Z.mod_pos_bound (n + 7) 8 ltac:(lia)). lia.
Qed.

Lemma pixel_index_range (width height y x : Z) :
  0 <= y < height -> 0 <= x < width -> 0 <= y * width + x < width * height.
Proof. intros Hy Hx. nia. Qed.

Lemma pack_packed (pixels : Z -> Z -> Z) (width height : Z) :
  0 <= width -> 0 <= height ->
  exists out,
    pack pixels width height = Some out /\
    packed (Z.to_nat ((width * height + 7) / 8))
      (fun i => existsb (fun y =>
                  existsb (fun x => (i =? y * width + x) && negb (pixels x y =? 0))
                    (range width)) (range height))
      out.
Proof.
  intros Hw Hh. unfold pack.
  assert (Hwh : 0 <= width * height) by nia.
  assert (Hc : 0 <= (width * height + 7) / 8) by (apply Z.div_pos; lia).
  destruct (Z.ltb_spec ((width * height + 7) / 8) 0) as [|_]; [lia|].
  destruct (rows_packed pixels width (Z.to_nat ((width * height + 7) / 8))
              (range width) (range height)) with
    (covered := fun _ : Z => false)
    (out := repeat Byte.x00 (Z.to_nat ((width * height + 7) / 8)))
    as (out & E & Hp).
  - intros y x Hy Hx. apply in_range in Hy. apply in_range in Hx.
    pose proof (pixel_index_range width height y x Hy Hx).
    pose proof (count_covers (width * height)). rewrite Z2Nat.id by lia. lia.
  - split; [apply repeat_length|]. intros i _. apply bit_zeros.
  - exists out. split; [exact E|]. exact Hp.
Qed.

Lemma covered_spec (pixels : Z -> Z -> Z) (width height i : Z) :
  0 <= width -> 0 <= i ->
  existsb (fun y =>
    existsb (fun x => (i =? y * width + x) && negb (pixels x y =? 0))
      (range width)) (range height)
  = (i <? width * height) && negb (pixels (i mod width) (i / width) =? 0).
Proof.
  intros Hw Hi. apply eq_true_iff_eq. rewrite existsb_exists, andb_true_iff. split.
  - intros (y & Hy & Hex). apply existsb_exists in Hex. destruct Hex as (x & Hx & Hb).
    apply in_range in Hy. apply in_range in Hx. apply andb_true_iff in Hb.
    destruct Hb as [Ei Hp]. apply Z.eqb_eq in Ei.
    pose proof (pixel_index_range width height y x Hy Hx).
    assert (Eq : i / width = y).
    { symmetry. apply (Z.div_unique_pos i width y x); lia. }
    assert (Em : i mod width = x).
    { symmetry. apply (Z.mod_unique_pos i width y x); lia. }
    rewrite Eq, Em. split; [apply Z.ltb_lt; lia|exact Hp].
  - intros [Hlt Hp]. apply Z.ltb_lt in Hlt.
    assert (Hpos : 0 < width).
    { destruct (Z.eq_dec width 0) as [E0|E0]; [rewrite E0 in Hlt; lia|lia]. }
    pose proof (Z.div_mod i width ltac:(lia)) as Ed.
    pose proof (Z.mod_pos_bound i width Hpos) as Bd.
    assert (Hq : 0 <= i / width) by (apply Z.div_pos; lia).
    assert (Hqh : i / width < height) by (apply Z.div_lt_upper_bound; lia).
    exists (i / width). split; [apply in_range; lia|].
    apply existsb_exists. exists (i mod width). split; [apply in_range; lia|].
    rewrite Hp, andb_true_r. apply Z.eqb_eq. lia.
Qed.

End PackingTheorems.

Section TranslatorTheorems.
Import CoverTranslator.
Context `{Imaging}.

Lemma startswith_app (s p : str) :
  startswith s p = true <-> exists r, s = p ++ r.
Proof.
  revert s. induction p as [|c p IH]; intros s; simpl.
  - split; [intros _; exists s; reflexivity|reflexivity].
  - destruct s as [|d s].
    + split; [discriminate|intros [r Hr]; discriminate].
    + rewrite andb_true_iff, N.eqb_eq, IH. split.
      * intros [-> [r ->]]. exists r. reflexivity.
      * intros [r Hr]. injection Hr as -> ->. split; [reflexivity|exists r; reflexivity].
Qed.

Lemma skipn_base (base sub : str) :
  skipn (List.length base + 1) (base ++ lit "/" ++ sub) = sub.
Proof.
  replace (List.length base + 1)%nat with (List.length (base ++ lit "/"))
    by (rewrite length_app; reflexivity).
  rewrite app_assoc. rewrite skipn_app, Nat.sub_diag, skipn_all. reflexivity.
Qed.

Lemma bytes_eqb_eq (a b : list Byte.byte) : bytes_eqb a b = true <-> a = b.
Proof.
  unfold bytes_eqb. destruct (list_eq_dec Byte.byte_eq_dec a b); split; congruence.
Qed.

Lemma on_message_cases (args : Args) (msg : ShairportMQTTClient.MQTTMessage) :
  let base := rstrip_slash_hash (topic_in args) in
  (_on_message args msg = [] /\
   ((forall sub, ShairportMQTTClient.topic msg <> base ++ lit "/" ++ sub) \/
    ShairportMQTTClient.topic msg = base ++ lit "/" ++ lit "cover")) \/
  exists sub payload,
    ShairportMQTTClient.topic msg = base ++ lit "/" ++ sub /\
    _on_message args msg = [mkPublish (topic_out args ++ lit "/" ++ sub) payload true] /\
    (payload = ShairportMQTTClient.payload msg \/
     sub = lit "cover" /\ _convert_cover args (ShairportMQTTClient.payload msg) = Some payload).
Proof.
  intros base. unfold _on_message. fold base.
  destruct (startswith (ShairportMQTTClient.topic msg) (base ++ lit "/")) eqn:Es; cbn [negb].
  2: { left. split; [reflexivity|]. left. intros sub E.
       assert (Hs : startswith (ShairportMQTTClient.topic msg) (base ++ lit "/") = true).
       { apply startswith_app. exists sub. rewrite E, <- app_assoc. reflexivity. }
       congruence. }
  apply startswith_app in Es. destruct Es as [sub Es].
  rewrite <- app_assoc in Es. rewrite Es, skipn_base.
  destruct (str_eqb sub (lit "cover")) eqn:Ec.
  - apply str_eqb_eq in Ec.
    destruct (bytes_eqb (ShairportMQTTClient.payload msg) (list_byte_of_string "--")).
    + right. exists sub, (ShairportMQTTClient.payload msg). auto.
    + destruct (_convert_cover args (ShairportMQTTClient.payload msg)) as [bitmap|] eqn:Eb.
      * right. exists sub, bitmap. auto.
      * left. split; [reflexivity|]. right. rewrite Ec. reflexivity.
  - right. exists sub, (ShairportMQTTClient.payload msg). auto.
Qed.

End TranslatorTheorems.

Section TranslatorResults.
Import CoverTranslator.
Context `{Imaging}.

(** X17. Once PIL has produced the 1-bit image, [_convert_cover] does not
    raise: no index of the packing loop is off the array and no byte
    overflows. The bitmap has one byte per eight pixels, rounded up. *)
Theorem convert_cover_packs_without_error (args : Args) (payload : list Byte.byte)
  (img : Image) (width height : Z) :
  cover_bitmap payload (size args) = Some img ->
  image_size img = (width, height) ->
  0 <= width -> 0 <= height ->
  exists out,
    _convert_cover args payload = Some out /\
    Z.of_nat (List.length out) = (width * height + 7) / 8.
Proof.
  intros Eimg Esize Hw Hh. unfold _convert_cover. rewrite Eimg, Esize.
  destruct (pack_packed (image_load img) width height Hw Hh) as (out & E & [Hlen _]).
  exists out. split; [exact E|]. rewrite Hlen, Z2Nat.id; [reflexivity|].
  apply Z.div_pos; nia.
Qed.

(** X18. The bitmap of [_convert_cover] is the image bit for bit: pixel
    [(x, y)] is bit [y * width + x], lowest bit of a byte first, set exactly
    when the pixel is not 0; the bits after the last pixel are 0. *)
Theorem convert_cover_bit_exact (args : Args) (payload out : list Byte.byte)
  (img : Image) (width height : Z) :
  cover_bitmap payload (size args) = Some img ->
  image_size img = (width, height) ->
  0 <= width -> 0 <= height ->
  _convert_cover args payload = Some out ->
  (forall x y, 0 <= x < width -> 0 <= y < height ->
     bit out (y * width + x) = negb (image_load img x y =? 0)) /\
  (forall i, width * height <= i -> bit out i = false).
Proof.
  intros Eimg Esize Hw Hh Eout. unfold _convert_cover in Eout.
  rewrite Eimg, Esize in Eout.
  destruct (pack_packed (image_load img) width height Hw Hh) as (out' & E & [_ Hb]).
  assert (out' = out) by congruence. subst out'.
  split.
  - intros x y Hx Hy.
    pose proof (pixel_index_range width height y x Hy Hx) as Hi.
    rewrite Hb by lia. rewrite covered_spec by lia.
    assert (Eq : (y * width + x) / width = y).
    { symmetry. apply (Z.div_unique_pos _ width y x); lia. }
    assert (Em : (y * width + x) mod width = x).
    { symmetry. apply (Z.mod_unique_pos _ width y x); lia. }
    rewrite Eq, Em. destruct (Z.ltb_spec (y * width + x) (width * height)); [reflexivity|lia].
  - intros i Hi. assert (0 <= i) by nia.
    rewrite Hb by lia. rewrite covered_spec by lia.
    destruct (Z.ltb_spec i (width * height)); [lia|reflexivity].
Qed.

(** X19. The crop box of both scripts is the centred square of the image:
    it lies inside the image, its side is the smaller dimension, it spans
    the image in that dimension and is centred in the other up to one
    pixel. *)
Theorem center_box_is_centred_square (width height : Z) :
  0 <= width -> 0 <= height ->
  let '(x0, y0, x1, y1) := center_box width height in
  0 <= x0 /\ 0 <= y0 /\ x1 <= width /\ y1 <= height /\
  x1 - x0 = Z.min width height /\ y1 - y0 = Z.min width height /\
  (x0 = 0 \/ y0 = 0) /\
  0 <= (width - x1) - x0 <= 1 /\ 0 <= (height - y1) - y0 <= 1.
Proof.
  intros Hw Hh. unfold center_box.
  pose proof (Z.div_mod (width - Z.min width height) 2 ltac:(lia)).
  pose proof (Z.mod_pos_bound (width - Z.min width height) 2 ltac:(lia)).
  pose proof (Z.div_mod (height - Z.min width height) 2 ltac:(lia)).
  pose proof (Z.mod_pos_bound (height - Z.min width height) 2 ltac:(lia)).
  assert (Hc : width <= height \/ height < width) by lia.
  destruct Hc as [Hc|Hc].
  - rewrite Z.min_l in * by lia. rewrite Z.sub_diag in *.
    change (0 / 2) with 0 in *. lia.
  - rewrite Z.min_r in * by lia. rewrite Z.sub_diag in *.
    change (0 / 2) with 0 in *. lia.
Qed.

(** X20. The translator publishes at most one message per message it
    receives, always retained and always under [topic_out] with the subtopic
    the message had under the input base; a message outside the base is
    dropped. Every subtopic but [cover] is forwarded with its payload
    unchanged, and so is the cover [b"--"]; any other cover is published
    converted, or not at all when the conversion raises. *)
Theorem translator_forwards (args : Args) (msg : ShairportMQTTClient.MQTTMessage) :
  let base := rstrip_slash_hash (topic_in args) in
  let topic := ShairportMQTTClient.topic msg in
  let payload := ShairportMQTTClient.payload msg in
  (List.length (_on_message args msg) <= 1)%nat /\
  (forall p, In p (_on_message args msg) ->
     pub_retain p = true /\
     exists sub, topic = base ++ lit "/" ++ sub /\
                 pub_topic p = topic_out args ++ lit "/" ++ sub) /\
  (forall sub, topic = base ++ lit "/" ++ sub -> sub <> lit "cover" ->
     _on_message args msg = [mkPublish (topic_out args ++ lit "/" ++ sub) payload true]) /\
  (topic = base ++ lit "/" ++ lit "cover" -> payload = list_byte_of_string "--" ->
     _on_message args msg
     = [mkPublish (topic_out args ++ lit "/" ++ lit "cover") payload true]) /\
  (topic = base ++ lit "/" ++ lit "cover" -> payload <> list_byte_of_string "--" ->
     _on_message args msg
     = match _convert_cover args payload with
       | Some bitmap =>
           [mkPublish (topic_out args ++ lit "/" ++ lit "cover") bitmap true]
       | None => []
       end).
Proof.
  intros base topic payload.
  assert (Hsub : forall sub, topic = base ++ lit "/" ++ sub ->
            _on_message args msg
            = if str_eqb sub (lit "cover") then
                if bytes_eqb payload (list_byte_of_string "--") then
                  [mkPublish (topic_out args ++ lit "/" ++ sub) payload true]
                else match _convert_cover args payload with
                     | Some bitmap =>
                         [mkPublish (topic_out args ++ lit "/" ++ sub) bitmap true]
                     | None => []
                     end
              else [mkPublish (topic_out args ++ lit "/" ++ sub) payload true]).
  { intros sub E. unfold _on_message. fold base topic payload.
    assert (Hs : startswith topic (base ++ lit "/") = true).
    { apply startswith_app. exists sub. rewrite E, <- app_assoc. reflexivity. }
    rewrite Hs. cbn [negb]. rewrite E, skipn_base. reflexivity. }
  split_all.
  - destruct (on_message_cases args msg) as [[E _]|(sub & p & _ & E & _)];
      fold base in E; rewrite E; simpl; lia.
  - intros p Hp.
    destruct (on_message_cases args msg) as [[E _]|(sub & p' & Et & E & _)];
      rewrite E in Hp; simpl in Hp; [contradiction|].
    destruct Hp as [<-|[]]. split; [reflexivity|]. exists sub. split; [exact Et|reflexivity].
  - intros sub E Hne. rewrite (Hsub sub E).
    destruct (str_eqb sub (lit "cover")) eqn:Ec; [|reflexivity].
    apply str_eqb_eq in Ec. contradiction.
  - intros E Ep. rewrite (Hsub _ E). rewrite str_eqb_refl.
    rewrite (proj2 (bytes_eqb_eq _ _) Ep). reflexivity.
  - intros E Ep. rewrite (Hsub _ E). rewrite str_eqb_refl.
    destruct (bytes_eqb payload (list_byte_of_string "--")) eqn:Eb; [|reflexivity].
    apply bytes_eqb_eq in Eb. contradiction.
Qed.

End TranslatorResults.

(** ** The cover display *)

Section CoverDisplayFacts.
Import CoverDisplay.
Context `{Platform} `{Imaging}.

Lemma is_timed_out_run (self : CoverTest) (w : World) :
  is_timed_out self w
  = Ok (negb (Qle_bool (clock w (clock_reads w) - last_activity self)
                (float DISPLAY_TIMEOUT)),
        clock_read w).
Proof. reflexivity. Qed.

(** The world after one tick of the loop. *)
Lemma cover_iteration_run (self : CoverTest) (st : Loop) (ops : list DeviceOp)
  (w : World) :
  exists w',
    iteration self st ops w
    = Ok (loop_body (cover_image self) (artist self) (title self)
            (negb (Qle_bool (clock w (clock_reads w) - last_activity self)
                     (float DISPLAY_TIMEOUT)))
            st ops, w') /\
    clock w' = clock w /\ clock_reads w' = S (clock_reads w) /\
    slept w' = (1 # 10)%Q :: slept w.
Proof.
  unfold iteration, get_cover, get_info, bind. rewrite is_timed_out_run.
  destruct (loop_body _ _ _ _ _ _) as [st' ops'].
  eexists. split; [reflexivity|]. repeat split.
Qed.

Lemma loop_body_orderly (cover : option Image) (artist title : option str)
  (timed_out : bool) (st : Loop) (ops : list DeviceOp) :
  orderly ops = true ->
  display_is_off st = negb (powered ops) ->
  orderly (snd (loop_body cover artist title timed_out st ops)) = true /\
  display_is_off (fst (loop_body cover artist title timed_out st ops))
  = negb (powered (snd (loop_body cover artist title timed_out st ops))).
Proof.
  intros Ho Hp. unfold loop_body.
  destruct timed_out, (display_is_off st) eqn:Eoff; cbn [andb negb];
    destruct (powered ops) eqn:Epow; try discriminate Hp;
    destruct (image_ne cover (last_cover st) || str_ne artist (last_artist st)
              || str_ne title (last_title st));
    destruct cover; cbn [fst snd display_is_off orderly powered andb negb];
    rewrite ?Epow, ?Ho; auto.
Qed.

Lemma str_ne_false (a b : option str) : str_ne a b = false <-> a = b.
Proof.
  destruct a as [a|], b as [b|]; simpl; split; try congruence; try reflexivity.
  - intros E. apply negb_false_iff in E. apply str_eqb_eq in E. congruence.
  - intros E. injection E as ->. rewrite str_eqb_refl. reflexivity.
Qed.

Lemma image_ne_refl (cover : option Image) :
  (forall img, image_eqb img img = true) -> image_ne cover cover = false.
Proof. intros Hr. destruct cover as [c|]; simpl; [rewrite Hr|]; reflexivity. Qed.

(** What [loop_body] leaves when the display is on afterwards. *)
Lemma loop_body_on (cover : option Image) (artist title : option str)
  (st : Loop) (ops : list DeviceOp) :
  (forall img, image_eqb img img = true) ->
  let st' := fst (loop_body cover artist title false st ops) in
  display_is_off st' = false /\
  image_ne cover (last_cover st') = false /\
  last_artist st' = artist /\ last_title st' = title.
Proof.
  intros Hr. unfold loop_body.
  destruct (display_is_off st); cbn [andb negb];
    destruct (image_ne cover (last_cover st)) eqn:Ec;
    destruct (str_ne artist (last_artist st)) eqn:Ea;
    destruct (str_ne title (last_title st)) eqn:Et; cbn [orb fst];
    cbn [display_is_off last_cover last_artist last_title];
    repeat split;
    try (apply image_ne_refl; exact Hr); try exact Ec;
    try (symmetry; apply str_ne_false; assumption).
Qed.

Lemma loop_body_off (cover : option Image) (artist title : option str)
  (st : Loop) (ops : list DeviceOp) :
  loop_body cover artist title true st ops
  = (mkLoop (last_cover st) (last_artist st) (last_title st) true,
     if display_is_off st then ops else Hide :: ops).
Proof. unfold loop_body. destruct (display_is_off st); reflexivity. Qed.

Lemma on_message_run (self : CoverTest) (msg : ShairportMQTTClient.MQTTMessage)
  (w : World) :
  exists self',
    _on_message self msg w
    = Ok (self', if is_activity msg then clock_read w else w) /\
    last_activity self'
    = (if is_activity msg then clock w (clock_reads w) else last_activity self).
Proof.
  unfold _on_message, is_activity.
  set (topic := ShairportMQTTClient.topic msg).
  assert (Hdiff : forall a b : string,
            str_eqb (MQTT_TOPIC_BASE ++ lit a) (MQTT_TOPIC_BASE ++ lit b) = false ->
            str_eqb topic (MQTT_TOPIC_BASE ++ lit a) = true ->
            str_eqb topic (MQTT_TOPIC_BASE ++ lit b) = false).
  { intros a b Hab Ha. apply str_eqb_eq in Ha. rewrite Ha. exact Hab. }
  destruct (str_eqb topic (MQTT_TOPIC_BASE ++ lit "/cover")) eqn:Ecover.
  { rewrite (Hdiff "/cover"%string "/artist"%string eq_refl Ecover),
            (Hdiff "/cover"%string "/play_start"%string eq_refl Ecover),
            (Hdiff "/cover"%string "/play_resume"%string eq_refl Ecover). cbn [orb].
    destruct (cover_bitmap _ _); eexists; split; reflexivity. }
  destruct (str_eqb topic (MQTT_TOPIC_BASE ++ lit "/title")) eqn:Etitle.
  { rewrite (Hdiff "/title"%string "/artist"%string eq_refl Etitle),
            (Hdiff "/title"%string "/play_start"%string eq_refl Etitle),
            (Hdiff "/title"%string "/play_resume"%string eq_refl Etitle). cbn [orb].
    eexists; split; reflexivity. }
  destruct (str_eqb topic (MQTT_TOPIC_BASE ++ lit "/artist")) eqn:Eartist.
  { cbn [orb]. eexists; split; reflexivity. }
  cbn [orb].
  destruct (str_eqb topic (MQTT_TOPIC_BASE ++ lit "/play_start")
            || str_eqb topic (MQTT_TOPIC_BASE ++ lit "/play_resume")).
  { eexists; split; reflexivity. }
  destruct (str_eqb topic (MQTT_TOPIC_BASE ++ lit "/play_end"));
    eexists; split; reflexivity.
Qed.

End CoverDisplayFacts.

Section CoverDisplayResults.
Import CoverDisplay.
Context `{Platform} `{Imaging}.

Lemma loop_body_unchanged (cover : option Image) (artist title : option str)
  (st : Loop) (ops : list DeviceOp) :
  display_is_off st = false ->
  image_ne cover (last_cover st) = false ->
  last_artist st = artist -> last_title st = title ->
  loop_body cover artist title false st ops = (st, ops).
Proof.
  intros Eoff Ec Ea Et. unfold loop_body. rewrite Eoff, Ec. cbn [andb negb orb].
  rewrite (proj2 (str_ne_false artist (last_artist st)) (eq_sym Ea)).
  rewrite (proj2 (str_ne_false title (last_title st)) (eq_sym Et)).
  cbn [orb]. destruct st; simpl in *. subst. reflexivity.
Qed.

Lemma display_text_length (s : str) : (List.length (display_text s) <= 15)%nat.
Proof.
  unfold display_text. destruct (Z.ltb_spec 15 (Z.of_nat (List.length s))) as [Hlt|Hle].
  - rewrite length_app, length_firstn.
    change (List.length (lit "...")) with 3%nat. lia.
  - lia.
Qed.

Lemma display_text_prefix (s : str) : firstn 12 (display_text s) = firstn 12 s.
Proof.
  unfold display_text. destruct (Z.ltb_spec 15 (Z.of_nat (List.length s))) as [Hlt|Hle];
    [|reflexivity].
  rewrite firstn_app, length_firstn.
  replace (12 - Nat.min 12 (List.length s))%nat with 0%nat by lia.
  rewrite firstn_firstn. simpl. rewrite app_nil_r. reflexivity.
Qed.

(** X21. The commands [main] sends to the device are orderly in every state
    of the program: it never hides a hidden display, never shows a shown one
    and never draws while the display is hidden; [display_is_off] tells
    whether the device is hidden. *)
Theorem device_commands_orderly (m : t) :
  reachable m ->
  orderly (sent m) = true /\
  display_is_off (loop m) = negb (powered (sent m)).
Proof.
  induction 1 as [w w' m E|m m' e w w' Hr [IHo IHp] E].
  - unfold setup, __init__, bind, time_time, ret in E. injection E as <- _.
    split; reflexivity.
  - destruct e as [msg|]; cbn [on_event] in E; unfold bind in E.
    + destruct (on_message_run (cover_test m) msg w) as (self' & Em & _).
      rewrite Em in E. injection E as <- _. split; assumption.
    + destruct (cover_iteration_run (cover_test m) (loop m) (sent m) w)
        as (w1 & Ei & _).
      rewrite Ei in E.
      pose proof (loop_body_orderly (cover_image (cover_test m))
                    (artist (cover_test m)) (title (cover_test m))
                    (negb (Qle_bool (clock w (clock_reads w)
                                     - last_activity (cover_test m))
                             (float DISPLAY_TIMEOUT)))
                    (loop m) (sent m) IHo IHp) as Hb.
      destruct (loop_body _ _ _ _ _ _) as [st' ops'].
      injection E as <- _. exact Hb.
Qed.


(** X23. The loop redraws only on a change: when a tick leaves the display
    on, the next tick without a message in between sends nothing to the
    device, or only [hide] when the timeout has passed by then. *)
Theorem idle_tick_is_silent (self : CoverTest) (st st1 : Loop)
  (ops ops1 : list DeviceOp) (w w1 w2 : World) :
  (forall img, image_eqb img img = true) ->
  iteration self st ops w = Ok ((st1, ops1), w1) ->
  display_is_off st1 = false ->
  exists st2 ops2 w3,
    iteration self st1 ops1 w2 = Ok ((st2, ops2), w3) /\
    (ops2 = ops1 \/ ops2 = Hide :: ops1) /\
    last_cover st2 = last_cover st1 /\ last_artist st2 = last_artist st1 /\
    last_title st2 = last_title st1.
Proof.
  intros Hr E1 Hon.
  destruct (cover_iteration_run self st ops w) as (w1' & E1' & _).
  rewrite E1' in E1. injection E1 as E1 _.
  destruct (Qle_bool (clock w (clock_reads w) - last_activity self)
              (float DISPLAY_TIMEOUT)); cbn [negb] in E1.
  2: { rewrite loop_body_off in E1. injection E1 as <- _. discriminate Hon. }
  pose proof (loop_body_on (cover_image self) (artist self) (title self) st ops Hr)
    as (_ & Hc & Ha & Ht).
  rewrite E1 in Hc, Ha, Ht. cbn [fst] in Hc, Ha, Ht.
  destruct (cover_iteration_run self st1 ops1 w2) as (w3 & E2 & _).
  destruct (Qle_bool (clock w2 (clock_reads w2) - last_activity self)
              (float DISPLAY_TIMEOUT)); cbn [negb] in E2.
  - rewrite (loop_body_unchanged _ _ _ st1 ops1 Hon Hc Ha Ht) in E2.
    exists st1, ops1, w3. split; [exact E2|]. auto.
  - rewrite loop_body_off, Hon in E2.
    eexists _, _, w3. split; [exact E2|]. cbn. auto.
Qed.

(** X24. [_on_message] never raises, and only an artist, a [play_start] or a
    [play_resume] message counts as activity: it sets [last_activity] to the
    clock, after which [is_timed_out] is false up to [DISPLAY_TIMEOUT]
    seconds later, that second included. Every other message, a new title or
    cover included, leaves [last_activity] as it was and does not read the
    clock. *)
Theorem only_activity_resets_timeout (self : CoverTest)
  (msg : ShairportMQTTClient.MQTTMessage) (w : World) :
  exists self' w',
    _on_message self msg w = Ok (self', w') /\
    (is_activity msg = true ->
       last_activity self' = clock w (clock_reads w) /\ w' = clock_read w /\
       forall w2,
         (clock w2 (clock_reads w2) - clock w (clock_reads w)
          <= float DISPLAY_TIMEOUT)%Q ->
         is_timed_out self' w2 = Ok (false, clock_read w2)) /\
    (is_activity msg = false ->
       last_activity self' = last_activity self /\ w' = w).
Proof.
  destruct (on_message_run self msg w) as (self' & E & Hl).
  exists self', (if is_activity msg then clock_read w else w).
  split; [exact E|]. split; intros Ha; rewrite Ha in Hl |- *.
  - split; [exact Hl|]. split; [reflexivity|].
    intros w2 Hle. rewrite is_timed_out_run, Hl.
    apply Qle_bool_iff in Hle. rewrite Hle. reflexivity.
  - split; [exact Hl|reflexivity].
Qed.

(** X25. Every text of [create_layout_left] starts at column 52, right of
    the cover, and is the artist (row 8) or the title (row 28), not empty and
    cut to at most 15 characters: the first 12 are kept, and a text of at
    most 15 characters is drawn whole. Nothing else is drawn. *)
Theorem layout_texts_fit (cover : Image) (artist title : option str) (op : DrawOp) :
  In op (drawn (create_layout_left cover artist title)) ->
  exists y s,
    op = DrawText (COVER_SIZE + 4) y (display_text s) 255 /\
    s <> [] /\
    (y = 8 /\ artist = Some s \/ y = 28 /\ title = Some s) /\
    (List.length (display_text s) <= 15)%nat /\
    firstn 12 (display_text s) = firstn 12 s /\
    ((List.length s <= 15)%nat -> display_text s = s).
Proof.
  intros Hin.
  assert (Hcases : exists y s,
            op = DrawText (COVER_SIZE + 4) y (display_text s) 255 /\ s <> [] /\
            (y = 8 /\ artist = Some s \/ y = 28 /\ title = Some s)).
  { unfold create_layout_left in Hin. cbn [drawn] in Hin.
    destruct title as [[|c s]|], artist as [[|c' s']|]; simpl in Hin;
      repeat match goal with
             | H : _ \/ _ |- _ => destruct H as [H|H]
             | H : False |- _ => contradiction
             end;
      subst op;
      first [ exists 8, (c' :: s'); split; [reflexivity|]; split; [discriminate|];
              left; split; reflexivity
            | exists 28, (c :: s); split; [reflexivity|]; split; [discriminate|];
              right; split; reflexivity ]. }
  destruct Hcases as (y & s & Eop & Hne & Hys).
  exists y, s. split_all; try assumption.
  - apply display_text_length.
  - apply display_text_prefix.
  - intros Hlen. unfold display_text.
    destruct (Z.ltb_spec 15 (Z.of_nat (List.length s))); [lia|reflexivity].
Qed.

End CoverDisplayResults.

Section CoverDisplayStartup.
Import CoverDisplay.
Context `{Platform} `{Imaging}.

Lemma loop_body_nothing_new (timed_out off : bool) (ops : list DeviceOp) :
  exists off',
    loop_body None None None timed_out (mkLoop None None None off) ops
    = (mkLoop None None None off',
       if timed_out && negb off then Hide :: ops
       else if negb timed_out && off then Show :: ops
       else ops).
Proof.
  unfold loop_body. destruct timed_out, off; cbn; eexists; reflexivity.
Qed.

Lemma ticks_nothing_new (n : nat) :
  forall (since : Q) (off : bool) (ops : list DeviceOp) (w : World),
    Forall (fun op => op = Hide \/ op = Show) ops ->
    exists m w',
      run (mk (mkCoverTest None None None since)
              (mkLoop None None None off) ops)
          (repeat Tick n) w = Ok (m, w') /\
      Forall (fun op => op = Hide \/ op = Show) (sent m).
Proof.
  induction n as [|n IH]; intros la off ops w Hops.
  - eexists _, _. split; [reflexivity|exact Hops].
  - cbn [repeat run on_event]. unfold bind at 1. unfold bind at 1.
    cbn [cover_test loop sent].
    destruct (cover_iteration_run (mkCoverTest None None None la)
                (mkLoop None None None off) ops w) as (w1 & E & _).
    rewrite E. cbn [cover_image artist title].
    destruct (loop_body_nothing_new
                (negb (Qle_bool (clock w (clock_reads w)
                                 - last_activity (mkCoverTest None None None la))
                         (float DISPLAY_TIMEOUT))) off ops) as (off' & Eb).
    rewrite Eb. unfold ret at 1. apply IH.
    destruct (_ && negb off); [constructor; auto|].
    destruct (_ && off); [constructor; auto|exact Hops].
Qed.

(** X26. Until a message changes the store, the loop draws nothing: after
    [setup] and any number of ticks, the device has got no picture, not even
    the text [Waiting for cover...], only [hide] and [show]. *)
Theorem startup_draws_nothing (n : nat) (w : World) :
  exists m w',
    (m0 <- setup ;; run m0 (repeat Tick n)) w = Ok (m, w') /\
    Forall (fun op => op = Hide \/ op = Show) (sent m).
Proof.
  unfold bind, setup, __init__, time_time, ret.
  apply ticks_nothing_new. constructor.
Qed.

Lemma cover_run_reachable (events : list Event) :
  forall (m m' : t) (w w' : World),
    reachable m -> run m events w = Ok (m', w') -> reachable m'.
Proof.
  induction events as [|e events IH]; intros m m' w w' Hr E.
  - injection E as <- _. exact Hr.
  - cbn [run] in E. unfold bind in E.
    destruct (on_event m e w) as [[m1 w1]|] eqn:E1; [|discriminate].
    apply (IH m1 m' w1 w'); [|exact E].
    apply (reachable_event m m1 e w w1 Hr E1).
Qed.

Lemma cover_session_reachable (events : list Event) (m : t) (w w' : World) :
  (m0 <- setup ;; run m0 events) w = Ok (m, w') -> reachable m.
Proof.
  unfold bind. destruct (setup w) as [[m0 w0]|] eqn:E0; [|discriminate].
  apply cover_run_reachable. apply (reachable_setup w w0 m0 E0).
Qed.

End CoverDisplayStartup.

Lemma pixels_eqb_refl (a : list Z) : pixels_eqb a a = true.
Proof. induction a as [|x a IH]; simpl; [reflexivity|]. rewrite Z.eqb_refl, IH. reflexivity. Qed.

Lemma raw_eqb_refl (img : raw_image) : raw_eqb img img = true.
Proof. unfold raw_eqb. rewrite !Z.eqb_refl, pixels_eqb_refl. reflexivity. Qed.

(** ** Examples of the further properties *)

Section StarfieldExamples.
Import Starfield StarfieldFacts.

Lemma two_stars_reachable : reachable two_stars.
Proof.
  eapply (reach_init 128 64 2 32 (world_of 0 edge_entropy)). vm_compute. reflexivity.
Qed.

Lemma starfield_population_witness :
  reachable two_stars /\
  List.length (stars two_stars) = 2%nat /\
  Forall coordinates_ok (stars two_stars).
Proof.
  split; [exact two_stars_reachable|].
  apply (starfield_population two_stars two_stars_reachable).
Defined.

Lemma set_viewport_centres_origin_witness :
  0 < 128 /\ 0 < 49 /\
  let self' := set_viewport two_stars 0 15 128 49 in
  stars self' = stars two_stars /\
  in_viewport self' (origin_x self') (origin_y self') = true /\
  0 <= 128 - 2 * (origin_x self' - 0) <= 1 /\
  0 <= 49 - 2 * (origin_y self' - 15) <= 1.
Proof.
  split; [lia|]. split; [lia|].
  apply (set_viewport_centres_origin two_stars 0 15 128 49); lia.
Defined.

Lemma empty_viewport_draws_nothing_witness :
  reachable (set_viewport two_stars 0 0 0 64) /\
  vp_w (set_viewport two_stars 0 0 0 64) <= 0 /\
  exists self' w',
    update_and_draw (set_viewport two_stars 0 0 0 64) [] (world_of 0 edge_entropy)
    = Ok (self', [], w').
Proof.
  split; [apply reach_viewport; exact two_stars_reachable|].
  split; [simpl; lia|].
  apply (empty_viewport_draws_nothing (set_viewport two_stars 0 0 0 64) []
           (world_of 0 edge_entropy)).
  - apply reach_viewport. exact two_stars_reachable.
  - left. simpl. lia.
Defined.


End StarfieldExamples.

Section TitleExamples.
Import TitleDisplay TitleDisplayFacts.


Lemma long_title_set :
  set_title wide_display (lit long_title) (world_of 0 edge_entropy)
  = Ok (waiting_display, clock_read (world_of 0 edge_entropy)).
Proof. vm_compute. reflexivity. Qed.

Lemma waiting_display_reachable : reachable waiting_display.
Proof.
  apply (@reach_set_title example_platform wide_display (lit long_title)
           (world_of 0 edge_entropy) waiting_display
           (clock_read (world_of 0 edge_entropy))).
  - constructor.
  - exact long_title_set.
Qed.

Lemma draw_scrolling_tiles_witness :
  reachable waiting_display /\
  is_scrolling waiting_display = true /\
  exists x : Z,
    draw waiting_display [] 0
    = [ DrawText (x + 256) 0 (lit long_title ++ lit "   ") 255;
        DrawText x 0 (lit long_title ++ lit "   ") 255 ] /\
    x <= 0 /\ 0 < x + 256.
Proof.
  split; [exact waiting_display_reachable|]. split; [reflexivity|].
  destruct (@draw_scrolling_tiles example_platform waiting_display [] 0
              waiting_display_reachable eq_refl) as (x & E & _ & Hx & Hw).
  exists x. split; [exact E|]. split; [exact Hx|]. apply Hw. reflexivity.
Defined.

Lemma yesterday_display_reachable : reachable yesterday_display.
Proof.
  apply (@reach_set_title example_platform narrow_display (lit "Yesterday")
           (world_of 0 edge_entropy) yesterday_display
           (clock_read (world_of 0 edge_entropy))).
  - constructor.
  - vm_compute. reflexivity.
Qed.

Lemma draw_centered_fits_witness :
  reachable yesterday_display /\
  text yesterday_display = Some (lit "Yesterday") /\
  is_scrolling yesterday_display = false /\
  exists x : Z,
    draw yesterday_display [] 0 = [DrawText x 0 (lit "- Yesterday -") 255] /\
    0 <= x /\ x + 58 <= 60.
Proof.
  split; [exact yesterday_display_reachable|]. split; [reflexivity|].
  split; [reflexivity|].
  destruct (@draw_centered_fits example_platform yesterday_display (lit "Yesterday")
              [] 0 yesterday_display_reachable eq_refl eq_refl)
    as (x & Ed & Hx & Hw & _).
  exists x. split; [exact Ed|]. split; [exact Hx|exact Hw].
Defined.

Lemma scroll_pass_witness :
  is_scrolling moving_display = true /\
  waiting_to_scroll moving_display = false /\
  scroll_offset moving_display = 0%Q /\
  0 < text_width moving_display /\
  exists s,
    updates 128 moving_display (world_of 0 edge_entropy)
    = Ok (s, clock_read_n 129 (world_of 0 edge_entropy)) /\
    scroll_offset s = 0%Q /\ waiting_to_scroll s = true.
Proof.
  split; [reflexivity|]. split; [reflexivity|]. split; [reflexivity|].
  split; [reflexivity|].
  destruct (@scroll_pass example_platform moving_display (world_of 0 edge_entropy)
              eq_refl eq_refl eq_refl eq_refl) as (_ & (s & E & Ho & Hw & _) & _).
  exists s. split; [exact E|]. split; assumption.
Defined.

End TitleExamples.

Section StoreExamples.
Import ShairportMQTTClient.

Lemma on_message_last_write_wins_witness :
  topic (msg_to "/title" "First") = topic (msg_to "/title" "Second") /\
  _on_message (_on_message example_store (msg_to "/title" "First"))
    (msg_to "/title" "Second")
  = _on_message example_store (msg_to "/title" "Second").
Proof.
  split; [reflexivity|].
  apply (@on_message_last_write_wins example_platform example_store
           (msg_to "/title" "First") (msg_to "/title" "Second")).
  reflexivity.
Defined.

End StoreExamples.

Section MainExamples.
Import Main MainFacts.




End MainExamples.

Section TranslatorExamples.
Import CoverTranslator.

Lemma convert_cover_packs_without_error_witness :
  cover_bitmap example_cover (size example_args) = Some example_bitmap /\
  image_size example_bitmap = (4, 4) /\
  exists out,
    _convert_cover example_args example_cover = Some out /\
    Z.of_nat (List.length out) = 2.
Proof.
  split; [reflexivity|]. split; [reflexivity|].
  apply (@convert_cover_packs_without_error example_imaging example_args
           example_cover example_bitmap 4 4); try reflexivity; lia.
Defined.

Lemma convert_cover_bit_exact_witness :
  cover_bitmap example_cover (size example_args) = Some example_bitmap /\
  image_size example_bitmap = (4, 4) /\
  _convert_cover example_args example_cover = Some [Byte.xcc; Byte.x33] /\
  bit [Byte.xcc; Byte.x33] (1 * 4 + 2) = negb (image_load example_bitmap 2 1 =? 0) /\
  bit [Byte.xcc; Byte.x33] 16 = false.
Proof.
  split; [reflexivity|]. split; [reflexivity|]. split; [reflexivity|].
  destruct (@convert_cover_bit_exact example_imaging example_args example_cover
              [Byte.xcc; Byte.x33] example_bitmap 4 4
              eq_refl eq_refl ltac:(lia) ltac:(lia) eq_refl) as [Hpix Hpad].
  split; [apply Hpix; lia|apply Hpad; lia].
Defined.

Lemma center_box_is_centred_square_witness :
  0 <= 640 /\ 0 <= 480 /\
  center_box 640 480 = (80, 0, 560, 480) /\
  let '(x0, y0, x1, y1) := center_box 640 480 in
  x1 - x0 = 480 /\ y1 - y0 = 480 /\ 0 <= (640 - x1) - x0 <= 1.
Proof.
  split; [lia|]. split; [lia|]. split; [reflexivity|].
  pose proof (center_box_is_centred_square 640 480 ltac:(lia) ltac:(lia)) as Hb.
  destruct (center_box 640 480) as [[[x0 y0] x1] y1].
  destruct Hb as (_ & _ & _ & _ & Hx & Hy & _ & Hc & _).
  split; [exact Hx|]. split; [exact Hy|exact Hc].
Defined.

End TranslatorExamples.

Section CoverDisplayExamples.
Import CoverDisplay.

Lemma session_run :
  exists w',
    (m0 <- setup ;; run m0 cover_session) (world_of 200 edge_entropy)
    = Ok (session_end, w').
Proof. eexists. vm_compute. reflexivity. Qed.

Lemma device_commands_orderly_witness :
  reachable session_end /\
  orderly (sent session_end) = true /\
  display_is_off (loop session_end) = negb (powered (sent session_end)).
Proof.
  assert (Hr : reachable session_end).
  { destruct session_run as [w' E].
    apply (@cover_session_reachable example_platform example_imaging cover_session
             session_end (world_of 200 edge_entropy) w' E). }
  split; [exact Hr|].
  apply (@device_commands_orderly example_platform example_imaging session_end Hr).
Defined.


Lemma idle_tick_is_silent_witness :
  (forall img : raw_image, raw_eqb img img = true) /\
  exists ops1 w1,
    iteration titled_store first_loop [] (world_of 200 edge_entropy)
    = Ok ((drawn_loop, ops1), w1) /\
    display_is_off drawn_loop = false /\
    List.length ops1 = 1%nat /\
    exists st2 ops2 w3,
      iteration titled_store drawn_loop ops1 w1 = Ok ((st2, ops2), w3) /\
      (ops2 = ops1 \/ ops2 = Hide :: ops1).
Proof.
  split; [exact raw_eqb_refl|].
  destruct (cover_iteration_run titled_store first_loop [] (world_of 200 edge_entropy))
    as (w1 & E1 & _).
  exists [Draw [DrawText 10 27 (lit "Waiting for cover...") 255]], w1.
  split; [exact E1|]. split; [reflexivity|]. split; [reflexivity|].
  destruct (@idle_tick_is_silent example_imaging titled_store first_loop drawn_loop
              [] [Draw [DrawText 10 27 (lit "Waiting for cover...") 255]]
              (world_of 200 edge_entropy) w1 w1 raw_eqb_refl E1 eq_refl)
    as (st2 & ops2 & w3 & E2 & Hops & _).
  exists st2, ops2, w3. split; assumption.
Defined.

Lemma layout_texts_fit_witness :
  In (DrawText 52 8 (lit "Hieronymus B...") 255)
     (drawn (create_layout_left example_bitmap
               (Some (lit "Hieronymus Bosch Band")) None)) /\
  exists y s,
    DrawText 52 8 (lit "Hieronymus B...") 255
    = DrawText (COVER_SIZE + 4) y (display_text s) 255 /\
    (y = 8 /\ Some (lit "Hieronymus Bosch Band") = Some s
     \/ y = 28 /\ @None str = Some s) /\
    (List.length (display_text s) <= 15)%nat.
Proof.
  assert (Hin : In (DrawText 52 8 (lit "Hieronymus B...") 255)
                  (drawn (create_layout_left example_bitmap
                            (Some (lit "Hieronymus Bosch Band")) None))).
  { left. reflexivity. }
  split; [exact Hin|].
  destruct (@layout_texts_fit example_imaging example_bitmap
              (Some (lit "Hieronymus Bosch Band")) None _ Hin)
    as (y & s & E & _ & Hys & Hlen & _).
  exists y, s. split; [exact E|]. split; [exact Hys|exact Hlen].
Defined.

End CoverDisplayExamples.
